(** * Procedural world engine: chunk synthesis, chunk cache and collision

    A shallow embedding of [src/engine/WorldManager.js]: the noise functions,
    the terrain synthesizer [_generateChunkData], the decoration pass with its
    per-chunk generator, the chunk cache with its generation queue, and the
    two collision queries.

    JavaScript numbers are IEEE-754 binary64 values.  The code is embedded
    once, over an interface [JSNumber] of the arithmetic it uses, and read at
    two instances:
    - [FloatNumber]: Rocq's primitive binary64 floats, which evaluate the code
      exactly as an engine does ([0/0] is [nan], comparisons with [nan] are
      false); [Math.sin] is left to the host engine by the language
      standard, so the instance takes it as an argument;
    - [RealNumber]: the real numbers, the idealisation in which the geometric
      statements (unit length) are exact.

    Integers that the code only ever uses as integers (chunk coordinates, tile
    indices, the numeric seed, tile types) are [Z] or [nat]; they enter number
    arithmetic through [of_Z]. *)

From Stdlib Require Import ZArith Floats Reals Lra Lia String.
From stdpp Require Import gmap list.

Set Default Proof Using "Type".

(** ** The arithmetic interface *)

Class JSNumber (N : Type) := {
  nadd : N -> N -> N;
  nsub : N -> N -> N;
  nmul : N -> N -> N;
  ndiv : N -> N -> N;
  nlt : N -> N -> bool;          (* [a < b] *)
  neqb : N -> N -> bool;         (* [a === b] on numbers *)
  nsqrt : N -> N;                (* [Math.sqrt] *)
  nabs : N -> N;                 (* [Math.abs] *)
  nsin : N -> N;                 (* [Math.sin] *)
  nfloor : N -> N;               (* [Math.floor] *)
  nfround : N -> N;              (* the rounding of a [Float32Array] store *)
  of_Z : Z -> N;                 (* an integer as a number *)
  floorZ : N -> Z;               (* [Math.floor], read as an integer *)
}.

Declare Scope js_scope.
Delimit Scope js_scope with js.
Notation "a + b" := (nadd a b) : js_scope.
Notation "a - b" := (nsub a b) : js_scope.
Notation "a * b" := (nmul a b) : js_scope.
Notation "a / b" := (ndiv a b) : js_scope.
Notation "a <? b" := (nlt a b) : js_scope.
Notation "a >? b" := (nlt b a) : js_scope.
Notation "a =? b" := (neqb a b) : js_scope.

(** [int z] is the integer literal [z]; [dec m k] is the decimal literal
    [m * 10^-k], so [dec 12 2] is [0.12] and [dec 1271 1] is [127.1].  At the
    float instance the quotient of two exactly represented integers is
    correctly rounded, which is the double the literal denotes. *)
Definition int {N} `{JSNumber N} (z : Z) : N := of_Z z.
Definition dec {N} `{JSNumber N} (m : Z) (k : nat) : N :=
  (of_Z m / of_Z (10 ^ Z.of_nat k))%js.

(** A number is truthy unless it is [0], [-0] or [NaN]. *)
Definition ntruthy {N} `{JSNumber N} (a : N) : bool :=
  (a <? int 0)%js || (int 0 <? a)%js.

(** [Math.max] of two numbers. *)
Definition nmax {N} `{JSNumber N} (a b : N) : N :=
  if negb (a =? a)%js then a else if negb (b =? b)%js then b
  else if (a <? b)%js then b else a.

(** *** Binary64 instance *)

Module F64.

(** The integer below a finite double, from its mantissa and exponent. *)
Definition floorZ (x : float) : Z :=
  match Prim2SF x with
  | S754_finite s m e =>
      let v := if s then Z.neg m else Z.pos m in
      if (0 <=? e)%Z then (v * 2 ^ e)%Z else (v / 2 ^ (- e))%Z
  | _ => 0%Z
  end.

(** The double nearest to an integer. *)
Definition of_Z (z : Z) : float :=
  SF2Prim (binary_normalize prec emax z 0 false).

(** [Math.floor]: doubles of magnitude [2^52] and more, zeros, infinities
    and [NaN] are their own floor. *)
Definition floor (x : float) : float :=
  if PrimFloat.ltb (PrimFloat.abs x) 0x1p52%float && negb (PrimFloat.eqb x 0%float)
  then of_Z (floorZ x) else x.

(** [Math.fround]: round to binary32 (24 bits, infinities at [2^128]). *)
Definition fround (x : float) : float :=
  match Prim2SF x with
  | S754_finite s m e =>
      SF2Prim (binary_normalize 24 128 (if s then Z.neg m else Z.pos m) e s)
  | _ => x
  end.

End F64.

Definition FloatNumber (sin : float -> float) : JSNumber float := {|
  nadd := PrimFloat.add;
  nsub := PrimFloat.sub;
  nmul := PrimFloat.mul;
  ndiv := PrimFloat.div;
  nlt := PrimFloat.ltb;
  neqb := PrimFloat.eqb;
  nsqrt := PrimFloat.sqrt;
  nabs := PrimFloat.abs;
  nsin := sin;
  nfloor := F64.floor;
  nfround := F64.fround;
  of_Z := F64.of_Z;
  floorZ := F64.floorZ;
|}.

(** *** Real-number instance *)

Definition Rltb (a b : R) : bool := if Rlt_dec a b then true else false.
Definition Reqb (a b : R) : bool := if Req_dec_T a b then true else false.

Definition RealNumber : JSNumber R := {|
  nadd := Rplus;
  nsub := Rminus;
  nmul := Rmult;
  ndiv := Rdiv;
  nlt := Rltb;
  neqb := Reqb;
  nsqrt := sqrt;
  nabs := Rabs;
  nsin := sin;
  nfloor := fun x => IZR (Int_part x);
  nfround := fun x => x;
  of_Z := IZR;
  floorZ := Int_part;
|}.

Example f64_floor_neg : F64.floor (-3.5)%float = (-4)%float.
Proof. reflexivity. Qed.
Example f64_floor_int : F64.floor (7)%float = (7)%float.
Proof. reflexivity. Qed.
Example f64_fround_tenth : F64.fround 0x1.999999999999ap-4%float = 0x1.99999ap-4%float.
Proof. reflexivity. Qed.
Example f64_dec_012 : @dec _ (FloatNumber (fun x => x)) 12 2 = 0x1.eb851eb851eb8p-4%float.
Proof. reflexivity. Qed.

(** ** Noise engine *)

Section Noise.
Context {N : Type} `{JSNumber N}.
Local Open Scope js_scope.

Definition fract (x : N) : N := x - nfloor x.

Definition hash2 (x y seedNum : N) : N :=
  let s := nsin (x * dec 1271 1 + y * dec 3117 1 + seedNum * dec 1017 1)
           * dec 437585453123 7 in
  fract s.

Definition lerp (a b t : N) : N := a + (b - a) * t.

Definition fade (t : N) : N := t * t * (int 3 - int 2 * t).

Definition valueNoise2D (x y seedNum : N) : N :=
  let x0 := nfloor x in
  let y0 := nfloor y in
  let sx := x - x0 in
  let sy := y - y0 in
  let n00 := hash2 x0 y0 seedNum in
  let n10 := hash2 (x0 + int 1) y0 seedNum in
  let n01 := hash2 x0 (y0 + int 1) seedNum in
  let n11 := hash2 (x0 + int 1) (y0 + int 1) seedNum in
  let ix0 := lerp n00 n10 (fade sx) in
  let ix1 := lerp n01 n11 (fade sx) in
  lerp ix0 ix1 (fade sy).

(** The loop variables of [fractalNoise2D]. *)
Record fractal_acc := { fa_freq : N; fa_amp : N; fa_sum : N; fa_max : N }.

(** One iteration of the octave loop, at index [i]. *)
Definition fractal_step (x y seedNum lacunarity gain : N) (a : fractal_acc) (i : nat)
  : fractal_acc :=
  {| fa_sum := fa_sum a
               + valueNoise2D (x * fa_freq a) (y * fa_freq a)
                   (seedNum + int (Z.of_nat i) * int 1000) * fa_amp a;
     fa_max := fa_max a + fa_amp a;
     fa_amp := fa_amp a * gain;
     fa_freq := fa_freq a * lacunarity |}.

(** [octaves] is the integer loop bound: [for (i = 0; i < octaves; i++)]. *)
Definition fractalNoise2D (x y seedNum : N) (octaves : Z) (lacunarity gain : N) : N :=
  let a := fold_left (fractal_step x y seedNum lacunarity gain)
             (seq 0 (Z.to_nat octaves))
             {| fa_freq := int 1; fa_amp := int 1; fa_sum := int 0; fa_max := int 0 |} in
  if fa_max a =? int 0 then int 0 else fa_sum a / fa_max a.

(** The defaults of the two trailing parameters. *)
Definition default_lacunarity : N := dec 20 1.
Definition default_gain : N := dec 5 1.

Definition ridgeNoise (x y seedNum : N) : N :=
  int 1 - nabs (fractalNoise2D x y seedNum 1 default_lacunarity default_gain * int 2 - int 1).

End Noise.

Arguments fractal_acc N : clear implicits.

(** ** Data model *)

(** 32-bit and 8-bit integer conversions of the language. *)
Definition toInt32 (z : Z) : Z := ((z + 2 ^ 31) mod 2 ^ 32 - 2 ^ 31)%Z.
Definition toUint8 (z : Z) : Z := (z mod 256)%Z.

(** [Math.imul]: the low 32 bits of the product, as a signed integer. *)
Definition imul (a b : Z) : Z := toInt32 (toInt32 a * toInt32 b).

(** A chunk key [`${cx},${cy}`]; the printing of two integers separated by a
    comma is injective, so the pair itself is the key. *)
Definition _key (cx cy : Z) : Z * Z := (cx, cy).

(** The identifier [`${chunkKey}_tree_${tx}_${ty}`] of a tree. *)
Definition ObstacleId : Type := (Z * Z) * nat * nat.

Section Model.
Context {N : Type} `{JSNumber N}.
Local Open Scope js_scope.

Record NoiseConfig := {
  scale : N;
  octaves : Z;
  lacunarity : N;
  gain : N;
  heightWeight : N;
  moistureWeight : N;
  temperatureWeight : N;
}.

(** The three [Float32Array]s of a chunk. *)
Record BiomeData := {
  bd_height : list N;
  bd_moisture : list N;
  bd_temperature : list N;
}.

(** What [_generateChunkData] and a worker job return: a [Uint8Array] of tile
    types and the biome fields. *)
Record ChunkData := {
  cd_tiles : list Z;
  cd_biomeData : BiomeData;
}.

Record Canvas := { cv_width : N; cv_height : N }.

(** A cached chunk; [c_biomeData] is [None] for the empty object [{}] of a
    placeholder, [c_canvas] is [None] for [null]. *)
Record Chunk := {
  c_cx : Z;
  c_cy : Z;
  c_tiles : list Z;
  c_biomeData : option BiomeData;
  c_generatedAt : Z;
  c_canvas : option Canvas;
  c_generationId : nat;
}.

(** A collidable object of the collision registry (only trees are made). *)
Record Obstacle := {
  o_width : N;
  o_height : N;
  o_type : string;
  o_x : N;
  o_y : N;
  o_id : ObstacleId;
  o_collisionRadius : N;
}.

(** The payload handed to [pool.enqueue], with the handle of its promise. *)
Record Job := {
  j_handle : nat;
  j_cx : Z;
  j_cy : Z;
  j_chunkSize : nat;
  j_tileSize : N;
  j_seedNum : Z;
  j_noiseConfig : NoiseConfig;
}.

(** The manager.  [pool] is [None] when no worker pool could be made, and
    otherwise lists the jobs enqueued and not yet settled.  The last three
    fields are the host: whether [document] is defined, the value of
    [Date.now()], and the next fresh promise handle. *)
Record WorldManager := {
  chunkSize : nat;
  tileSize : N;
  seed : string;
  seedNum : Z;
  chunks : gmap (Z * Z) Chunk;
  collisionMap : gmap (Z * Z) (list Obstacle);
  noiseConfig : NoiseConfig;
  generationQueue : gmap (Z * Z) nat;
  _generationId : nat;
  pool : option (list Job);
  host_document : bool;
  host_now : Z;
  host_nextHandle : nat;
}.

(** ** Terrain synthesizer *)

(** The biome chain of [_generateChunkData]. *)
Definition biomeTile (height moisture temperature ridge : N) : Z :=
  if height <? dec 12 2 then
    (if height <? dec 6 2 then 0 else if height <? dec 9 2 then 1 else 2)
  else if height <? dec 16 2 then 3
  else if height <? dec 65 2 then
    (if moisture >? dec 7 1 then 5
     else if moisture <? dec 3 1 then 6
     else 4)
  else if height <? dec 82 2 then
    (if ridge >? dec 6 1 then 7
     else if temperature >? dec 6 1 then 6 else 4)
  else
    (if height >? dec 88 2 then 8 else 7).

(** The infrastructure overlay that follows it. *)
Definition infrastructureTile (featureNoise height moisture temperature : N)
    (tileType : Z) : Z :=
  if (featureNoise >? dec 65 2) && (featureNoise <? dec 67 2)
     && (height >? dec 3 1) && (height <? dec 6 1) && (moisture >? dec 4 1)
  then 9
  else if (featureNoise >? dec 75 2) && (height >? dec 35 2) && (height <? dec 5 1)
  then (if temperature >? dec 5 1 then 10 else 11)
  else tileType.

(** The values computed for one tile. *)
Record TileSample := {
  ts_tileType : Z;
  ts_height : N;
  ts_moisture : N;
  ts_temperature : N;
}.

(** The noise layers of [_generateChunkData] at world tile
    [(worldX, worldY)]. *)
Definition heightAt (seedNum : Z) (cfg : NoiseConfig) (worldX worldY : N) : N :=
  fractalNoise2D (worldX * scale cfg) (worldY * scale cfg) (int seedNum)
    (octaves cfg) (lacunarity cfg) (gain cfg) * heightWeight cfg.

Definition moistureAt (seedNum : Z) (cfg : NoiseConfig) (worldX worldY : N) : N :=
  fractalNoise2D (worldX * scale cfg * dec 13 1) (worldY * scale cfg * dec 13 1)
    (int seedNum + int 1000) (octaves cfg - 1)%Z default_lacunarity default_gain
  * moistureWeight cfg.

Definition temperatureAt (seedNum : Z) (cfg : NoiseConfig) (worldX worldY : N) : N :=
  fractalNoise2D (worldX * scale cfg * dec 8 1) (worldY * scale cfg * dec 8 1)
    (int seedNum + int 2000) (octaves cfg - 1)%Z default_lacunarity default_gain
  * temperatureWeight cfg.

Definition ridgeAt (seedNum : Z) (cfg : NoiseConfig) (worldX worldY : N) : N :=
  ridgeNoise (worldX * scale cfg * dec 5 1) (worldY * scale cfg * dec 5 1)
    (int seedNum + int 3000).

Definition featureNoiseAt (seedNum : Z) (cfg : NoiseConfig) (worldX worldY : N) : N :=
  fractalNoise2D (worldX * scale cfg * int 4) (worldY * scale cfg * int 4)
    (int seedNum + int 4000) 2 default_lacunarity default_gain.

(** [cx * size + tx]. *)
Definition worldCoord (size : nat) (c : Z) (t : nat) : N :=
  int c * int (Z.of_nat size) + int (Z.of_nat t).

(** The body of the two loops of [_generateChunkData], at local tile
    [(tx, ty)]. *)
Definition sampleTile (size : nat) (seedNum : Z) (cfg : NoiseConfig)
    (cx cy : Z) (tx ty : nat) : TileSample :=
  let worldX := worldCoord size cx tx in
  let worldY := worldCoord size cy ty in
  let height := heightAt seedNum cfg worldX worldY in
  let moisture := moistureAt seedNum cfg worldX worldY in
  let temperature := temperatureAt seedNum cfg worldX worldY in
  let ridge := ridgeAt seedNum cfg worldX worldY in
  let tileType := biomeTile height moisture temperature ridge in
  let featureNoise := featureNoiseAt seedNum cfg worldX worldY in
  {| ts_tileType := infrastructureTile featureNoise height moisture temperature tileType;
     ts_height := height;
     ts_moisture := moisture;
     ts_temperature := temperature |}.

(** The stores of one iteration into the four typed arrays. *)
Definition storeTile (idx : nat) (s : TileSample) (d : ChunkData) : ChunkData :=
  {| cd_tiles := <[idx := toUint8 (ts_tileType s)]> (cd_tiles d);
     cd_biomeData :=
       {| bd_height := <[idx := nfround (ts_height s)]> (bd_height (cd_biomeData d));
          bd_moisture := <[idx := nfround (ts_moisture s)]> (bd_moisture (cd_biomeData d));
          bd_temperature :=
            <[idx := nfround (ts_temperature s)]> (bd_temperature (cd_biomeData d)) |} |}.

(** Four zero-filled typed arrays of [n] entries. *)
Definition emptyChunkData (n : nat) : ChunkData :=
  {| cd_tiles := replicate n 0%Z;
     cd_biomeData := {| bd_height := replicate n (int 0);
                        bd_moisture := replicate n (int 0);
                        bd_temperature := replicate n (int 0) |} |}.

(** The synthesis proper, on the values it reads from the manager. *)
Definition synthesize (size : nat) (seedNum : Z) (cfg : NoiseConfig) (cx cy : Z)
  : ChunkData :=
  fold_left
    (fun d ty =>
       fold_left
         (fun d tx => storeTile (ty * size + tx)%nat
                        (sampleTile size seedNum cfg cx cy tx ty) d)
         (seq 0 size) d)
    (seq 0 size)
    (emptyChunkData (size * size)).

Definition _generateChunkData (wm : WorldManager) (cx cy : Z) : ChunkData :=
  synthesize (chunkSize wm) (seedNum wm) (noiseConfig wm) cx cy.

(** ** Field updates of the manager *)

Definition set_chunks (f : gmap (Z * Z) Chunk -> gmap (Z * Z) Chunk)
    (wm : WorldManager) : WorldManager :=
  {| chunkSize := chunkSize wm; tileSize := tileSize wm; seed := seed wm;
     seedNum := seedNum wm; chunks := f (chunks wm);
     collisionMap := collisionMap wm; noiseConfig := noiseConfig wm;
     generationQueue := generationQueue wm; _generationId := _generationId wm;
     pool := pool wm; host_document := host_document wm; host_now := host_now wm;
     host_nextHandle := host_nextHandle wm |}.

Definition set_collisionMap
    (f : gmap (Z * Z) (list Obstacle) -> gmap (Z * Z) (list Obstacle))
    (wm : WorldManager) : WorldManager :=
  {| chunkSize := chunkSize wm; tileSize := tileSize wm; seed := seed wm;
     seedNum := seedNum wm; chunks := chunks wm;
     collisionMap := f (collisionMap wm); noiseConfig := noiseConfig wm;
     generationQueue := generationQueue wm; _generationId := _generationId wm;
     pool := pool wm; host_document := host_document wm; host_now := host_now wm;
     host_nextHandle := host_nextHandle wm |}.

Definition set_generationQueue (f : gmap (Z * Z) nat -> gmap (Z * Z) nat)
    (wm : WorldManager) : WorldManager :=
  {| chunkSize := chunkSize wm; tileSize := tileSize wm; seed := seed wm;
     seedNum := seedNum wm; chunks := chunks wm;
     collisionMap := collisionMap wm; noiseConfig := noiseConfig wm;
     generationQueue := f (generationQueue wm); _generationId := _generationId wm;
     pool := pool wm; host_document := host_document wm; host_now := host_now wm;
     host_nextHandle := host_nextHandle wm |}.

Definition set_generationId (n : nat) (wm : WorldManager) : WorldManager :=
  {| chunkSize := chunkSize wm; tileSize := tileSize wm; seed := seed wm;
     seedNum := seedNum wm; chunks := chunks wm;
     collisionMap := collisionMap wm; noiseConfig := noiseConfig wm;
     generationQueue := generationQueue wm; _generationId := n;
     pool := pool wm; host_document := host_document wm; host_now := host_now wm;
     host_nextHandle := host_nextHandle wm |}.

Definition set_pool (p : option (list Job)) (h : nat) (wm : WorldManager)
  : WorldManager :=
  {| chunkSize := chunkSize wm; tileSize := tileSize wm; seed := seed wm;
     seedNum := seedNum wm; chunks := chunks wm;
     collisionMap := collisionMap wm; noiseConfig := noiseConfig wm;
     generationQueue := generationQueue wm; _generationId := _generationId wm;
     pool := p; host_document := host_document wm; host_now := host_now wm;
     host_nextHandle := h |}.

Definition set_seed (s : string) (n : Z) (wm : WorldManager) : WorldManager :=
  {| chunkSize := chunkSize wm; tileSize := tileSize wm; seed := s;
     seedNum := n; chunks := chunks wm;
     collisionMap := collisionMap wm; noiseConfig := noiseConfig wm;
     generationQueue := generationQueue wm; _generationId := _generationId wm;
     pool := pool wm; host_document := host_document wm; host_now := host_now wm;
     host_nextHandle := host_nextHandle wm |}.

Definition set_noiseConfig (c : NoiseConfig) (wm : WorldManager) : WorldManager :=
  {| chunkSize := chunkSize wm; tileSize := tileSize wm; seed := seed wm;
     seedNum := seedNum wm; chunks := chunks wm;
     collisionMap := collisionMap wm; noiseConfig := c;
     generationQueue := generationQueue wm; _generationId := _generationId wm;
     pool := pool wm; host_document := host_document wm; host_now := host_now wm;
     host_nextHandle := host_nextHandle wm |}.

(** ** Decoration pass *)

(** The initial state of the generator of [_createChunkRNG]. *)
Definition chunkRNGSeed (wm : WorldManager) (cx cy : Z) : Z :=
  (seedNum wm + cx * 131 + cy * 197)%Z.

(** One call of the closure returned by [_createChunkRNG]: the value drawn and
    the new state. *)
Definition chunkRNGNext (state : Z) : N * Z :=
  let state := toInt32 (imul state 1597334677) in
  let state := toInt32 (imul state 1597334677) in
  (int (Z.land state 0x7fffffff) / int 0x7fffffff, state).

(** The state after [n] draws, and the value of draw number [n] (from 0). *)
Definition chunkRNGState (seed0 : Z) (n : nat) : Z :=
  Nat.iter n (fun s => snd (chunkRNGNext s)) seed0.
Definition chunkRNGValue (seed0 : Z) (n : nat) : N :=
  fst (chunkRNGNext (chunkRNGState seed0 n)).

(** The collision data [_drawTree] returns: [width] and [height].  The species
    only selects colours and shapes of the drawing. *)
Definition _drawTree (size age : N) : N * N :=
  let trunkHeight := size * dec 12 1 * age in
  let canopySize := size * dec 14 1 * age in
  (canopySize, trunkHeight + canopySize).

(** The object pushed on [chunkTrees] for a tree at local tile [(tx, ty)]. *)
Definition treeObstacle (wm : WorldManager) (cx cy : Z) (tilePx : N) (tx ty : nat)
    (size age : N) : Obstacle :=
  let localX := int (Z.of_nat tx) * tilePx + tilePx / int 2 in
  let localY := int (Z.of_nat ty) * tilePx + tilePx / int 2 in
  let worldTreeX := int cx * int (Z.of_nat (chunkSize wm)) * tilePx + localX in
  let worldTreeY := int cy * int (Z.of_nat (chunkSize wm)) * tilePx + localY in
  let treeCollision := _drawTree size age in
  {| o_width := fst treeCollision;
     o_height := snd treeCollision;
     o_type := "tree"%string;
     o_x := worldTreeX;
     o_y := worldTreeY;
     o_id := (_key cx cy, tx, ty);
     o_collisionRadius := nmax (fst treeCollision) (snd treeCollision) * dec 4 1 |}.

(** One iteration of the loops of [_decorateChunk] on the generator state and
    the list [chunkTrees]. *)
Definition decorateTile (wm : WorldManager) (cx cy : Z) (tiles : list Z)
    (biomeData : BiomeData) (tilePx : N) (ty tx : nat) (acc : Z * list Obstacle)
  : Z * list Obstacle :=
  let idx := (ty * chunkSize wm + tx)%nat in
  let '(featureRoll, state) := chunkRNGNext (fst acc) in
  let chunkTrees := snd acc in
  match tiles !! idx with
  | Some 5%Z =>
      if featureRoll <? dec 3 1
      then (state, chunkTrees ++ [treeObstacle wm cx cy tilePx tx ty
                                    (tilePx * dec 11 1) (dec 8 1 + featureRoll * dec 4 1)])
      else (state, chunkTrees)
  | Some 4%Z =>
      if (featureRoll <? dec 5 2)
         && match bd_moisture biomeData !! idx with
            | Some m => m >? dec 5 1
            | None => false
            end
      then (state, chunkTrees ++ [treeObstacle wm cx cy tilePx tx ty
                                    (tilePx * dec 9 1) (dec 6 1 + featureRoll)])
      else (state, chunkTrees)
  | _ => (state, chunkTrees)
  end.

(** [_decorateChunk]: the trees of the chunk, stored in the collision
    registry under the chunk key. *)
Definition chunkTreesOf (wm : WorldManager) (cx cy : Z) (tiles : list Z)
    (biomeData : BiomeData) (tilePx : N) : list Obstacle :=
  snd (fold_left
         (fun acc ty =>
            fold_left (fun acc tx => decorateTile wm cx cy tiles biomeData tilePx ty tx acc)
              (seq 0 (chunkSize wm)) acc)
         (seq 0 (chunkSize wm))
         (chunkRNGSeed wm cx cy, [])).

Definition _decorateChunk (wm : WorldManager) (cx cy : Z) (tiles : list Z)
    (biomeData : BiomeData) (tilePx : N) : list Obstacle * WorldManager :=
  let chunkTrees := chunkTreesOf wm cx cy tiles biomeData tilePx in
  let treeCollisions := filter (fun obj => o_type obj = "tree"%string) chunkTrees in
  (chunkTrees, set_collisionMap (insert (_key cx cy) treeCollisions) wm).

(** ** Chunk cache and generation coordinator *)

(** [_createCanvasForTiles]: [None] when there is no [document]; otherwise a
    canvas of the chunk's pixel size, drawn from the tiles given (or from a
    fresh synthesis when either argument is missing) and decorated, which
    stores the chunk's trees in the collision registry. *)
Definition _createCanvasForTiles (wm : WorldManager) (cx cy : Z)
    (tiles : option (list Z)) (biomeData : option BiomeData)
  : option Canvas * WorldManager :=
  let size := int (Z.of_nat (chunkSize wm)) in
  let tilePx := tileSize wm in
  if negb (host_document wm) then (None, wm)
  else
    let canv := {| cv_width := size * tilePx; cv_height := size * tilePx |} in
    let '(tiles, biomeData) :=
      match tiles, biomeData with
      | Some t, Some b => (t, b)
      | _, _ => let generated := _generateChunkData wm cx cy in
                (cd_tiles generated, cd_biomeData generated)
      end in
    (Some canv, snd (_decorateChunk wm cx cy tiles biomeData tilePx)).

Definition _postProcessGeneratedChunk (wm : WorldManager) (cx cy : Z)
    (data : option ChunkData) : Chunk * WorldManager :=
  let '(rendered, wm) :=
    _createCanvasForTiles wm cx cy (cd_tiles <$> data) (cd_biomeData <$> data) in
  ({| c_cx := cx;
      c_cy := cy;
      c_tiles := match data with
                 | Some d => cd_tiles d
                 | None => replicate (chunkSize wm * chunkSize wm) 0%Z
                 end;
      c_biomeData := cd_biomeData <$> data;
      c_generatedAt := host_now wm;
      c_canvas := rendered;
      c_generationId := _generationId wm |},
   set_generationId (S (_generationId wm)) wm).

(** How a call of [_generateChunkAsync] leaves its synchronous part: with the
    handle already in the queue, with the chunk already cached, with a job
    newly dispatched to the pool, or with a chunk synthesized on the spot. *)
Inductive AsyncOutcome :=
  | InFlight (handle : nat)
  | Existing (chunk : Chunk)
  | Dispatched (handle : nat)
  | Generated (chunk : Chunk).

(** The synchronous fallback at the end of [_generateChunkAsync]. *)
Definition generateFallback (wm : WorldManager) (cx cy : Z) : Chunk * WorldManager :=
  let data := _generateChunkData wm cx cy in
  let '(chunk, wm) := _postProcessGeneratedChunk wm cx cy (Some data) in
  (chunk, set_chunks (insert (_key cx cy) chunk) wm).

(** The test [chunks.has(key)] followed by [if (chunk.canvas)]: the cached
    chunk, when it has a canvas. *)
Definition cachedChunk (wm : WorldManager) (key : Z * Z) : option Chunk :=
  match chunks wm !! key with
  | Some chunk => match c_canvas chunk with Some _ => Some chunk | None => None end
  | None => None
  end.

(** [_generateChunkAsync], up to its first suspension. *)
Definition _generateChunkAsync (wm : WorldManager) (cx cy : Z)
  : AsyncOutcome * WorldManager :=
  let key := _key cx cy in
  match generationQueue wm !! key with
  | Some handle => (InFlight handle, wm)
  | None =>
      match cachedChunk wm key with
      | Some existing => (Existing existing, wm)
      | None =>
          match pool wm with
          | Some jobs =>
              let handle := host_nextHandle wm in
              let args := {| j_handle := handle; j_cx := cx; j_cy := cy;
                             j_chunkSize := chunkSize wm; j_tileSize := tileSize wm;
                             j_seedNum := seedNum wm;
                             j_noiseConfig := noiseConfig wm |} in
              (Dispatched handle,
               set_generationQueue (insert key handle)
                 (set_pool (Some (jobs ++ [args])) (S handle) wm))
          | None =>
              let '(chunk, wm) := generateFallback wm cx cy in
              (Generated chunk, wm)
          end
      end
  end.

(** The rest of [_generateChunkAsync] once the job behind [handle] settles.
    Fulfilled with [result]: post-process, cache the chunk, drop the queue
    entry. *)
Definition takeJob (handle : nat) (jobs : list Job) : option (Job * list Job) :=
  match filter (fun j => j_handle j = handle) jobs with
  | j :: _ => Some (j, filter (fun j => j_handle j <> handle) jobs)
  | [] => None
  end.

Definition jobFulfilled (wm : WorldManager) (handle : nat) (result : ChunkData)
  : WorldManager :=
  match pool wm with
  | Some jobs =>
      match takeJob handle jobs with
      | Some (j, rest) =>
          let wm := set_pool (Some rest) (host_nextHandle wm) wm in
          let '(chunk, wm) :=
            _postProcessGeneratedChunk wm (j_cx j) (j_cy j) (Some result) in
          set_generationQueue (delete (_key (j_cx j) (j_cy j)))
            (set_chunks (insert (_key (j_cx j) (j_cy j)) chunk) wm)
      | None => wm
      end
  | None => wm
  end.

(** Rejected (a failure or a timeout): drop the queue entry and fall back to
    the synchronous synthesis. *)
Definition jobRejected (wm : WorldManager) (handle : nat) : WorldManager :=
  match pool wm with
  | Some jobs =>
      match takeJob handle jobs with
      | Some (j, rest) =>
          let wm := set_pool (Some rest) (host_nextHandle wm) wm in
          let wm := set_generationQueue (delete (_key (j_cx j) (j_cy j))) wm in
          snd (generateFallback wm (j_cx j) (j_cy j))
      | None => wm
      end
  | None => wm
  end.

Definition getChunk (wm : WorldManager) (cx cy : Z) : Chunk * WorldManager :=
  let key := _key cx cy in
  match cachedChunk wm key with
  | Some chunk => (chunk, wm)
  | None =>
      let '(placeholder, wm) := _postProcessGeneratedChunk wm cx cy None in
      let wm := set_chunks (insert key placeholder) wm in
      (placeholder, snd (_generateChunkAsync wm cx cy))
  end.

Definition getTileAtWorld (wm : WorldManager) (x y : N) : Z * WorldManager :=
  let tx := nfloor (x / tileSize wm) in
  let ty := nfloor (y / tileSize wm) in
  let cx := nfloor (tx / int (Z.of_nat (chunkSize wm))) in
  let cy := nfloor (ty / int (Z.of_nat (chunkSize wm))) in
  let '(chunk, wm) := getChunk wm (floorZ cx) (floorZ cy) in
  let localX := (floorZ tx - floorZ cx * Z.of_nat (chunkSize wm))%Z in
  let localY := (floorZ ty - floorZ cy * Z.of_nat (chunkSize wm))%Z in
  if (localX <? 0)%Z || (Z.of_nat (chunkSize wm) <=? localX)%Z
     || (localY <? 0)%Z || (Z.of_nat (chunkSize wm) <=? localY)%Z
  then (4%Z, wm)
  else
    match c_tiles chunk !! Z.to_nat (localY * Z.of_nat (chunkSize wm) + localX) with
    | Some 0%Z | None => (4%Z, wm)
    | Some t => (t, wm)
    end.

Definition chebyshevFar (centerCx centerCy radius : Z) (chunk : Chunk) : bool :=
  let dx := Z.abs (c_cx chunk - centerCx) in
  let dy := Z.abs (c_cy chunk - centerCy) in
  (radius <? dx)%Z || (radius <? dy)%Z.

Definition unloadFarChunks (wm : WorldManager) (centerCx centerCy radius : Z)
  : WorldManager :=
  let toRemove :=
    List.map fst
      (List.filter (fun kc => chebyshevFar centerCx centerCy radius (snd kc))
         (map_to_list (chunks wm))) in
  fold_left
    (fun wm key => set_collisionMap (delete key) (set_chunks (delete key) wm))
    toRemove wm.

Definition clearChunk (wm : WorldManager) (cx cy : Z) : WorldManager :=
  let key := _key cx cy in
  set_collisionMap (delete key)
    (set_generationQueue (delete key)
       (set_chunks (delete key) wm)).

(** The hash of the seed string, [seedStringToNumber] of [utils/prng]. *)
Variable seedStringToNumber : string -> Z.

Definition setSeed (wm : WorldManager) (s : string) : WorldManager :=
  set_generationQueue (fun _ => ∅)
    (set_chunks (fun _ => ∅)
       (set_seed s (seedStringToNumber s) wm)).

(** A partial configuration, as passed to [setNoiseConfig]. *)
Record NoiseConfigPatch := {
  p_scale : option N;
  p_octaves : option Z;
  p_lacunarity : option N;
  p_gain : option N;
  p_heightWeight : option N;
  p_moistureWeight : option N;
  p_temperatureWeight : option N;
}.

Definition mergeNoiseConfig (c : NoiseConfig) (p : NoiseConfigPatch) : NoiseConfig :=
  {| scale := default (scale c) (p_scale p);
     octaves := default (octaves c) (p_octaves p);
     lacunarity := default (lacunarity c) (p_lacunarity p);
     gain := default (gain c) (p_gain p);
     heightWeight := default (heightWeight c) (p_heightWeight p);
     moistureWeight := default (moistureWeight c) (p_moistureWeight p);
     temperatureWeight := default (temperatureWeight c) (p_temperatureWeight p) |}.

Definition setNoiseConfig (wm : WorldManager) (cfg : NoiseConfigPatch) : WorldManager :=
  set_generationQueue (fun _ => ∅)
    (set_chunks (fun _ => ∅)
       (set_noiseConfig (mergeNoiseConfig (noiseConfig wm) cfg) wm)).

(** ** Collision queries *)

(** What a collision result names as its [obstacle]: a registered object, or
    the descriptor [{type, tileType, x, y}] of a terrain tile. *)
Inductive Collider :=
  | ObjectCollider (o : Obstacle)
  | TileCollider (type : string) (tileType : Z) (x y : N).

(** The result [{collided: true, obstacle, penetration, direction}]; the
    result [{collided: false}] is [None]. *)
Record Collision := {
  obstacle : Collider;
  penetration : N;
  direction : N * N;
}.

(** The first result of a loop body that returns from inside the loop. *)
Fixpoint firstHit {A B : Type} (body : A -> option B) (l : list A) : option B :=
  match l with
  | [] => None
  | a :: l => match body a with
              | Some b => Some b
              | None => firstHit body l
              end
  end.

(** The same with the manager threaded through the iterations. *)
Fixpoint firstHitIn {A B : Type} (body : WorldManager -> A -> option B * WorldManager)
    (l : list A) (wm : WorldManager) : option B * WorldManager :=
  match l with
  | [] => (None, wm)
  | a :: l => match body wm a with
              | (Some b, wm) => (Some b, wm)
              | (None, wm) => firstHitIn body l wm
              end
  end.

Definition offsets : list Z := [-1; 0; 1]%Z.

(** The test of one obstacle in [checkCollision]. *)
Definition obstacleCollision (x y radius : N) (ignoreId : option ObstacleId)
    (o : Obstacle) : option Collision :=
  if match ignoreId with
     | Some i => bool_decide (o_id o = i)
     | None => false
     end
  then None
  else
    let dx := o_x o - x in
    let dy := o_y o - y in
    let distance := nsqrt (dx * dx + dy * dy) in
    let minDistance :=
      radius + (if ntruthy (o_collisionRadius o) then o_collisionRadius o
                else o_width o * dec 5 1) in
    if distance <? minDistance
    then Some {| obstacle := ObjectCollider o;
                 penetration := minDistance - distance;
                 direction := (dx / distance, dy / distance) |}
    else None.

Definition checkCollision (wm : WorldManager) (x y radius : N)
    (ignoreId : option ObstacleId) : option Collision :=
  let chunkX := floorZ (nfloor (x / (int (Z.of_nat (chunkSize wm)) * tileSize wm))) in
  let chunkY := floorZ (nfloor (y / (int (Z.of_nat (chunkSize wm)) * tileSize wm))) in
  firstHit
    (fun offsetX =>
       firstHit
         (fun offsetY =>
            let chunkKey := _key (chunkX + offsetX) (chunkY + offsetY) in
            match collisionMap wm !! chunkKey with
            | Some obstacles =>
                firstHit (obstacleCollision x y radius ignoreId) obstacles
            | None => None
            end)
         offsets)
    offsets.

Definition collisionTiles : list Z := [5; 7; 8; 10; 11]%Z.

Definition _getTileName (tileType : Z) : string :=
  match tileType with
  | 0 => "deep_ocean"
  | 1 => "ocean"
  | 2 => "shallow_water"
  | 3 => "beach"
  | 4 => "grass"
  | 5 => "forest"
  | 6 => "dirt"
  | 7 => "mountain"
  | 8 => "snow_mountain"
  | 9 => "road"
  | 10 => "building"
  | 11 => "ruin"
  | _ => "unknown"
  end%Z%string.

(** The circle test shared by the two branches of [_checkTerrainCollision]:
    the tile centre against the query point, with tile radius
    [factor * tileSize]. *)
Definition tileCollision (wm : WorldManager) (x y radius : N) (checkX checkY : Z)
    (factor : N) (type : string) (tileType : Z) : option Collision :=
  let tileCenterX := int checkX * tileSize wm + tileSize wm / int 2 in
  let tileCenterY := int checkY * tileSize wm + tileSize wm / int 2 in
  let dx := tileCenterX - x in
  let dy := tileCenterY - y in
  let distance := nsqrt (dx * dx + dy * dy) in
  let minDistance := radius + tileSize wm * factor in
  if distance <? minDistance
  then Some {| obstacle := TileCollider type tileType tileCenterX tileCenterY;
               penetration := minDistance - distance;
               direction := (dx / distance, dy / distance) |}
  else None.

(** The body of the two loops of [_checkTerrainCollision], at tile
    [(checkX, checkY)]. *)
Definition terrainTileCheck (x y radius : N) (checkX checkY : Z) (wm : WorldManager)
  : option Collision * WorldManager :=
  let '(tileType, wm) :=
    getTileAtWorld wm (int checkX * tileSize wm) (int checkY * tileSize wm) in
  let blocking :=
    if bool_decide (tileType ∈ collisionTiles)
    then tileCollision wm x y radius checkX checkY (dec 4 1) (_getTileName tileType) tileType
    else None in
  match blocking with
  | Some c => (Some c, wm)
  | None =>
      if (tileType =? 0)%Z || (tileType =? 1)%Z
      then (tileCollision wm x y radius checkX checkY (dec 3 1) "water" tileType, wm)
      else (None, wm)
  end.

Definition _checkTerrainCollision (wm : WorldManager) (x y radius : N)
  : option Collision * WorldManager :=
  let tileX := floorZ (nfloor (x / tileSize wm)) in
  let tileY := floorZ (nfloor (y / tileSize wm)) in
  firstHitIn
    (fun wm offsetX =>
       firstHitIn
         (fun wm offsetY =>
            terrainTileCheck x y radius (tileX + offsetX) (tileY + offsetY) wm)
         offsets wm)
    offsets wm.

End Model.

Arguments NoiseConfig N : clear implicits.
Arguments BiomeData N : clear implicits.
Arguments ChunkData N : clear implicits.
Arguments Canvas N : clear implicits.
Arguments Chunk N : clear implicits.
Arguments Obstacle N : clear implicits.
Arguments Job N : clear implicits.
Arguments WorldManager N : clear implicits.
Arguments TileSample N : clear implicits.
Arguments AsyncOutcome N : clear implicits.
Arguments Collider N : clear implicits.
Arguments Collision N : clear implicits.
Arguments NoiseConfigPatch N : clear implicits.

(** * Properties *)

(** ** Loops that fill an array row by row *)

Lemma fold_left_proj {S T X : Type} (p : S -> T) (f : S -> X -> S) (g : T -> X -> T) :
  (forall s x, p (f s x) = g (p s) x) ->
  forall l s, p (fold_left f l s) = fold_left g l (p s).
Proof.
  intros Hpf l. induction l as [|x l IH]; intros s; simpl; [done|].
  by rewrite IH, Hpf.
Qed.

Section Fill.
Context {A : Type} (size : nat) (v : nat -> nat -> A).

Definition fillRow (ty : nat) (l : list A) : list A :=
  fold_left (fun l tx => <[(ty * size + tx)%nat := v tx ty]> l) (seq 0 size) l.

Definition fillRows (l : list A) : list A :=
  fold_left (fun l ty => fillRow ty l) (seq 0 size) l.

Lemma fillRow_prefix (ty n : nat) (l : list A) :
  let l' := fold_left (fun l tx => <[(ty * size + tx)%nat := v tx ty]> l) (seq 0 n) l in
  length l' = length l
  /\ (forall j, (j < ty * size \/ ty * size + n <= j)%nat -> l' !! j = l !! j)
  /\ (forall tx, (tx < n)%nat -> (ty * size + tx < length l)%nat ->
        l' !! (ty * size + tx)%nat = Some (v tx ty)).
Proof.
  cbv zeta. induction n as [|n IH].
  - simpl. split; [done|]. split; [done|]. intros tx Htx; lia.
  - rewrite seq_S, fold_left_app. simpl.
    destruct IH as (Hlen & Hout & Hin).
    split; [by rewrite length_insert|]. split.
    + intros j Hj. rewrite list_lookup_insert_ne by lia. apply Hout. lia.
    + intros tx Htx Hlt. destruct (decide (tx = n)) as [->|Hne].
      * apply list_lookup_insert_eq. lia.
      * rewrite list_lookup_insert_ne by lia. apply Hin; lia.
Qed.

Lemma fillRows_prefix (m : nat) (l : list A) :
  length l = (size * size)%nat -> (m <= size)%nat ->
  let l' := fold_left (fun l ty => fillRow ty l) (seq 0 m) l in
  length l' = length l
  /\ (forall j, (m * size <= j)%nat -> l' !! j = l !! j)
  /\ (forall tx ty, (ty < m)%nat -> (tx < size)%nat ->
        l' !! (ty * size + tx)%nat = Some (v tx ty)).
Proof.
  cbv zeta. intros Hl. induction m as [|m IH]; intros Hm.
  - simpl. split; [done|]. split; [done|]. intros tx ty Hty; lia.
  - rewrite seq_S, fold_left_app. simpl.
    destruct IH as (Hlen & Hout & Hin); [lia|].
    set (l1 := fold_left (fun l ty => fillRow ty l) (seq 0 m) l) in *.
    destruct (fillRow_prefix m size l1) as (Hlen' & Hout' & Hin').
    fold (fillRow m l1) in Hlen', Hout', Hin'.
    split; [congruence|]. split.
    + intros j Hj. rewrite Hout' by lia. apply Hout. lia.
    + intros tx ty Hty Htx. destruct (decide (ty = m)) as [->|Hne].
      * apply Hin'; [done|]. rewrite Hlen, Hl. nia.
      * rewrite Hout' by nia. apply Hin; [lia|done].
Qed.

Lemma fillRows_lookup (l : list A) (tx ty : nat) :
  length l = (size * size)%nat -> (tx < size)%nat -> (ty < size)%nat ->
  fillRows l !! (ty * size + tx)%nat = Some (v tx ty).
Proof.
  intros Hl Htx Hty.
  destruct (fillRows_prefix size l Hl (Nat.le_refl _)) as (_ & _ & Hin).
  by apply Hin.
Qed.

Lemma fillRows_length (l : list A) :
  length l = (size * size)%nat -> length (fillRows l) = (size * size)%nat.
Proof.
  intros Hl.
  destruct (fillRows_prefix size l Hl (Nat.le_refl _)) as (Hlen & _).
  unfold fillRows. by rewrite Hlen.
Qed.

End Fill.

(** ** The synthesized arrays *)

Section Synthesis.
Context {N : Type} `{JSNumber N}.
Local Open Scope js_scope.

Lemma synthesize_tiles size seedNum cfg cx cy :
  cd_tiles (synthesize size seedNum cfg cx cy)
  = fillRows size
      (fun tx ty => toUint8 (ts_tileType (sampleTile size seedNum cfg cx cy tx ty)))
      (replicate (size * size) 0%Z).
Proof.
  unfold synthesize, fillRows.
  rewrite (fold_left_proj cd_tiles _
             (fun l ty => fillRow size
                (fun tx ty => toUint8 (ts_tileType (sampleTile size seedNum cfg cx cy tx ty)))
                ty l)); [done|].
  intros d ty. unfold fillRow. by apply fold_left_proj.
Qed.

(** The same for each of the three biome fields, selected by [field] from the
    arrays and by [value] from the sample. *)
Lemma synthesize_field (field : BiomeData N -> list N) (value : TileSample N -> N)
    size seedNum cfg cx cy :
  (forall idx s d,
     field (cd_biomeData (storeTile idx s d))
     = <[idx := nfround (value s)]> (field (cd_biomeData d))) ->
  field (cd_biomeData (emptyChunkData (size * size))) = replicate (size * size) (int 0) ->
  field (cd_biomeData (synthesize size seedNum cfg cx cy))
  = fillRows size
      (fun tx ty => nfround (value (sampleTile size seedNum cfg cx cy tx ty)))
      (replicate (size * size) (int 0)).
Proof.
  intros Hstore Hempty. unfold synthesize, fillRows.
  rewrite (fold_left_proj (fun d => field (cd_biomeData d)) _
             (fun l ty => fillRow size
                (fun tx ty => nfround (value (sampleTile size seedNum cfg cx cy tx ty)))
                ty l)); [by rewrite Hempty|].
  intros d ty. unfold fillRow.
  by apply (fold_left_proj (fun d => field (cd_biomeData d))).
Qed.

Lemma synthesize_tile_lookup size seedNum cfg cx cy tx ty :
  (tx < size)%nat -> (ty < size)%nat ->
  cd_tiles (synthesize size seedNum cfg cx cy) !! (ty * size + tx)%nat
  = Some (toUint8 (ts_tileType (sampleTile size seedNum cfg cx cy tx ty))).
Proof.
  intros Htx Hty. rewrite synthesize_tiles.
  exact (fillRows_lookup size
           (fun tx ty => toUint8 (ts_tileType (sampleTile size seedNum cfg cx cy tx ty)))
           _ tx ty (length_replicate _ _) Htx Hty).
Qed.

Lemma synthesize_tiles_length size seedNum cfg cx cy :
  length (cd_tiles (synthesize size seedNum cfg cx cy)) = (size * size)%nat.
Proof. rewrite synthesize_tiles. apply fillRows_length, length_replicate. Qed.

Lemma synthesize_height_lookup size seedNum cfg cx cy tx ty :
  (tx < size)%nat -> (ty < size)%nat ->
  bd_height (cd_biomeData (synthesize size seedNum cfg cx cy)) !! (ty * size + tx)%nat
  = Some (nfround (ts_height (sampleTile size seedNum cfg cx cy tx ty))).
Proof.
  intros Htx Hty. rewrite (synthesize_field bd_height ts_height) by done.
  exact (fillRows_lookup size
           (fun tx ty => nfround (ts_height (sampleTile size seedNum cfg cx cy tx ty)))
           _ tx ty (length_replicate _ _) Htx Hty).
Qed.

Lemma synthesize_moisture_lookup size seedNum cfg cx cy tx ty :
  (tx < size)%nat -> (ty < size)%nat ->
  bd_moisture (cd_biomeData (synthesize size seedNum cfg cx cy)) !! (ty * size + tx)%nat
  = Some (nfround (ts_moisture (sampleTile size seedNum cfg cx cy tx ty))).
Proof.
  intros Htx Hty. rewrite (synthesize_field bd_moisture ts_moisture) by done.
  exact (fillRows_lookup size
           (fun tx ty => nfround (ts_moisture (sampleTile size seedNum cfg cx cy tx ty)))
           _ tx ty (length_replicate _ _) Htx Hty).
Qed.

Lemma synthesize_temperature_lookup size seedNum cfg cx cy tx ty :
  (tx < size)%nat -> (ty < size)%nat ->
  bd_temperature (cd_biomeData (synthesize size seedNum cfg cx cy)) !! (ty * size + tx)%nat
  = Some (nfround (ts_temperature (sampleTile size seedNum cfg cx cy tx ty))).
Proof.
  intros Htx Hty. rewrite (synthesize_field bd_temperature ts_temperature) by done.
  exact (fillRows_lookup size
           (fun tx ty => nfround (ts_temperature (sampleTile size seedNum cfg cx cy tx ty)))
           _ tx ty (length_replicate _ _) Htx Hty).
Qed.

(** ** Tile types are the ordinals 0 to 11 *)

Lemma biomeTile_range height moisture temperature ridge :
  (0 <= biomeTile height moisture temperature ridge <= 8)%Z.
Proof. unfold biomeTile. repeat case_match; lia. Qed.

Lemma infrastructureTile_range featureNoise height moisture temperature tileType :
  (0 <= tileType <= 11)%Z ->
  (0 <= infrastructureTile featureNoise height moisture temperature tileType <= 11)%Z.
Proof. intros Ht. unfold infrastructureTile. repeat case_match; lia. Qed.

Lemma sampleTile_range size seedNum cfg cx cy tx ty :
  (0 <= ts_tileType (sampleTile size seedNum cfg cx cy tx ty) <= 11)%Z.
Proof.
  unfold sampleTile. simpl. apply infrastructureTile_range.
  pose proof (biomeTile_range
    (heightAt seedNum cfg (worldCoord size cx tx) (worldCoord size cy ty))
    (moistureAt seedNum cfg (worldCoord size cx tx) (worldCoord size cy ty))
    (temperatureAt seedNum cfg (worldCoord size cx tx) (worldCoord size cy ty))
    (ridgeAt seedNum cfg (worldCoord size cx tx) (worldCoord size cy ty))).
  lia.
Qed.

Lemma toUint8_small z : (0 <= z <= 11)%Z -> toUint8 z = z.
Proof. intros Hz. unfold toUint8. apply Z.mod_small. lia. Qed.

(** ** The biome chain against the ordered table of thresholds *)

(** Rules tried from the top; the first whose guard holds gives the result. *)
Fixpoint firstMatch {A : Type} (rules : list (bool * A)) (otherwise : A) : A :=
  match rules with
  | [] => otherwise
  | (guard, result) :: rules => if guard then result else firstMatch rules otherwise
  end.

(** The classification as the specification words it: four height bands in
    order, each with its own sub-rules, and the peaks otherwise. *)
Definition biomeByThresholds (height moisture temperature ridge : N) : Z :=
  firstMatch
    [ (height <? dec 12 2,
        firstMatch [ (height <? dec 6 2, 0%Z); (height <? dec 9 2, 1%Z) ] 2%Z);
      (height <? dec 16 2, 3%Z);
      (height <? dec 65 2,
        firstMatch [ (moisture >? dec 7 1, 5%Z); (moisture <? dec 3 1, 6%Z) ] 4%Z);
      (height <? dec 82 2,
        firstMatch [ (ridge >? dec 6 1, 7%Z); (temperature >? dec 6 1, 6%Z) ] 4%Z) ]
    (firstMatch [ (height >? dec 88 2, 8%Z) ] 7%Z).

Lemma biomeTile_by_thresholds height moisture temperature ridge :
  biomeTile height moisture temperature ridge
  = biomeByThresholds height moisture temperature ridge.
Proof.
  unfold biomeTile, biomeByThresholds. simpl.
  repeat case_match; reflexivity.
Qed.

End Synthesis.

(** ** What the cache operations leave unchanged *)

Section Frames.
Context {N : Type} `{JSNumber N}.
Local Open Scope js_scope.

(** The values the synthesis reads from the manager, and the configuration
    as a whole. *)
Definition synthesisInputs (wm : WorldManager N) : nat * Z * NoiseConfig N :=
  (chunkSize wm, seedNum wm, noiseConfig wm).

Definition configOf (wm : WorldManager N) : nat * N * Z * NoiseConfig N :=
  (chunkSize wm, tileSize wm, seedNum wm, noiseConfig wm).

Lemma configOf_inputs wm1 wm2 :
  configOf wm1 = configOf wm2 -> synthesisInputs wm1 = synthesisInputs wm2.
Proof. unfold configOf, synthesisInputs. by intros [= -> _ -> ->]. Qed.

Lemma createCanvas_config wm cx cy tiles biomeData :
  configOf (snd (_createCanvasForTiles wm cx cy tiles biomeData)) = configOf wm.
Proof.
  unfold _createCanvasForTiles.
  destruct (host_document wm); simpl; [|done].
  by destruct tiles, biomeData.
Qed.

Lemma postProcess_config wm cx cy data :
  configOf (snd (_postProcessGeneratedChunk wm cx cy data)) = configOf wm.
Proof.
  unfold _postProcessGeneratedChunk.
  pose proof (createCanvas_config wm cx cy (cd_tiles <$> data) (cd_biomeData <$> data)) as Hc.
  destruct (_createCanvasForTiles _ _ _ _ _) as [rendered wm']. simpl in *.
  exact Hc.
Qed.

Lemma postProcess_chunk wm cx cy d :
  let chunk := fst (_postProcessGeneratedChunk wm cx cy (Some d)) in
  c_tiles chunk = cd_tiles d /\ c_biomeData chunk = Some (cd_biomeData d)
  /\ c_cx chunk = cx /\ c_cy chunk = cy.
Proof.
  unfold _postProcessGeneratedChunk.
  destruct (_createCanvasForTiles _ _ _ _ _) as [rendered wm']. by simpl.
Qed.

Lemma generateFallback_config wm cx cy :
  configOf (snd (generateFallback wm cx cy)) = configOf wm.
Proof.
  unfold generateFallback.
  pose proof (postProcess_config wm cx cy (Some (_generateChunkData wm cx cy))) as Hp.
  destruct (_postProcessGeneratedChunk _ _ _ _) as [chunk wm']. simpl in *.
  exact Hp.
Qed.

Lemma generateChunkAsync_config wm cx cy :
  configOf (snd (_generateChunkAsync wm cx cy)) = configOf wm.
Proof.
  unfold _generateChunkAsync.
  destruct (generationQueue wm !! _key cx cy); [done|].
  destruct (cachedChunk wm (_key cx cy)); [done|].
  destruct (pool wm); [done|].
  pose proof (generateFallback_config wm cx cy) as Hg.
  by destruct (generateFallback wm cx cy).
Qed.

Lemma getChunk_config wm cx cy :
  configOf (snd (getChunk wm cx cy)) = configOf wm.
Proof.
  unfold getChunk. destruct (cachedChunk wm (_key cx cy)); [done|].
  pose proof (postProcess_config wm cx cy None) as Hp.
  destruct (_postProcessGeneratedChunk wm cx cy None) as [placeholder wm1]. simpl in *.
  by rewrite generateChunkAsync_config.
Qed.


Lemma generateFallback_chunk wm cx cy :
  let chunk := fst (generateFallback wm cx cy) in
  c_tiles chunk = cd_tiles (_generateChunkData wm cx cy)
  /\ c_biomeData chunk = Some (cd_biomeData (_generateChunkData wm cx cy)).
Proof.
  unfold generateFallback.
  pose proof (postProcess_chunk wm cx cy (_generateChunkData wm cx cy)) as Hp.
  destruct (_postProcessGeneratedChunk _ _ _ _) as [chunk wm']. simpl in *.
  tauto.
Qed.

Lemma generateChunkData_inputs wm1 wm2 cx cy :
  synthesisInputs wm1 = synthesisInputs wm2 ->
  _generateChunkData wm1 cx cy = _generateChunkData wm2 cx cy.
Proof.
  unfold synthesisInputs, _generateChunkData. intros Heq.
  injection Heq as -> -> ->. reflexivity.
Qed.

(** C1: the chunk synthesis reads only the chunk size, the numeric seed and
    the noise configuration of the manager, so two managers that agree on
    these produce the same tile grid and the same height, moisture and
    temperature arrays for a chunk; in particular a chunk generated, cleared
    from the cache and generated again carries the same arrays, those of
    [_generateChunkData]. *)
Theorem synthesis_deterministic (wm1 wm2 : WorldManager N) (cx cy : Z) :
  synthesisInputs wm1 = synthesisInputs wm2 ->
  _generateChunkData wm1 cx cy = _generateChunkData wm2 cx cy
  /\ (let first := generateFallback wm1 cx cy in
      let second := generateFallback (clearChunk (snd first) cx cy) cx cy in
      c_tiles (fst second) = c_tiles (fst first)
      /\ c_biomeData (fst second) = c_biomeData (fst first)
      /\ c_tiles (fst first) = cd_tiles (_generateChunkData wm2 cx cy)
      /\ c_biomeData (fst first) = Some (cd_biomeData (_generateChunkData wm2 cx cy))).
Proof.
  intros Heq. split; [by apply generateChunkData_inputs|].
  cbv zeta.
  destruct (generateFallback_chunk wm1 cx cy) as [Ht1 Hb1].
  destruct (generateFallback_chunk (clearChunk (snd (generateFallback wm1 cx cy)) cx cy) cx cy)
    as [Ht2 Hb2].
  assert (Hre : _generateChunkData (clearChunk (snd (generateFallback wm1 cx cy)) cx cy) cx cy
                = _generateChunkData wm1 cx cy).
  { apply generateChunkData_inputs, configOf_inputs.
    transitivity (configOf (snd (generateFallback wm1 cx cy)));
      [reflexivity|apply generateFallback_config]. }
  rewrite Ht2, Hb2, Ht1, Hb1, Hre.
  by rewrite (generateChunkData_inputs wm1 wm2 cx cy Heq).
Qed.

(** C8: for every tile of a chunk, the tile type that [_generateChunkData]
    stores is the infrastructure overlay applied to the biome chosen from the
    tile's height by the ordered thresholds, first match winning: water tiers
    below 0.12, beach below 0.16, forest, dirt or grass by moisture below
    0.65, mountain, dirt or grass by ridge and temperature below 0.82, and
    snow above 0.88 or mountain otherwise. *)
Theorem tile_classified_by_thresholds (wm : WorldManager N) (cx cy : Z) (tx ty : nat) :
  (tx < chunkSize wm)%nat -> (ty < chunkSize wm)%nat ->
  let worldX := worldCoord (chunkSize wm) cx tx in
  let worldY := worldCoord (chunkSize wm) cy ty in
  let height := heightAt (seedNum wm) (noiseConfig wm) worldX worldY in
  let moisture := moistureAt (seedNum wm) (noiseConfig wm) worldX worldY in
  let temperature := temperatureAt (seedNum wm) (noiseConfig wm) worldX worldY in
  let ridge := ridgeAt (seedNum wm) (noiseConfig wm) worldX worldY in
  let featureNoise := featureNoiseAt (seedNum wm) (noiseConfig wm) worldX worldY in
  biomeTile height moisture temperature ridge
  = biomeByThresholds height moisture temperature ridge
  /\ cd_tiles (_generateChunkData wm cx cy) !! (ty * chunkSize wm + tx)%nat
     = Some (infrastructureTile featureNoise height moisture temperature
               (biomeByThresholds height moisture temperature ridge)).
Proof.
  intros Htx Hty. cbv zeta. split; [apply biomeTile_by_thresholds|].
  unfold _generateChunkData. rewrite synthesize_tile_lookup by done.
  rewrite toUint8_small by apply sampleTile_range.
  unfold sampleTile. simpl. by rewrite biomeTile_by_thresholds.
Qed.

End Frames.

(** ** Loops that return from inside *)

Lemma firstHit_Some {A B : Type} (body : A -> option B) (l : list A) (b : B) :
  firstHit body l = Some b -> exists a, a ∈ l /\ body a = Some b.
Proof.
  induction l as [|a l IH]; simpl; [done|].
  destruct (body a) as [b'|] eqn:Ha.
  - intros [= <-]. exists a. split; [left|done].
  - intros Hl. destruct (IH Hl) as (a' & Hin & Hb). exists a'. split; [by right|done].
Qed.

Lemma firstHit_None {A B : Type} (body : A -> option B) (l : list A) :
  (forall a, a ∈ l -> body a = None) -> firstHit body l = None.
Proof.
  induction l as [|a l IH]; simpl; [done|]. intros Hall.
  rewrite (Hall a) by left. apply IH. intros a' Ha'. apply Hall. by right.
Qed.

Section Collisions.
Context {N : Type} `{JSNumber N}.
Local Open Scope js_scope.

Lemma firstHitIn_Some {A B : Type}
    (body : WorldManager N -> A -> option B * WorldManager N)
    (l : list A) (wm wm' : WorldManager N) (b : B) :
  firstHitIn body l wm = (Some b, wm') ->
  exists a wm0, a ∈ l /\ body wm0 a = (Some b, wm').
Proof.
  revert wm. induction l as [|a l IH]; intros wm; simpl; [done|].
  destruct (body wm a) as [[b'|] wm1] eqn:Ha.
  - intros [= <- <-]. exists a, wm. split; [left|done].
  - intros Hl. destruct (IH _ Hl) as (a' & wm0 & Hin & Hb).
    exists a', wm0. split; [by right|done].
Qed.

(** The distance and the threshold that [checkCollision] computes for an
    obstacle. *)
Definition obstacleDistance (x y : N) (o : Obstacle N) : N :=
  nsqrt ((o_x o - x) * (o_x o - x) + (o_y o - y) * (o_y o - y)).

Definition obstacleMinDistance (radius : N) (o : Obstacle N) : N :=
  radius + (if ntruthy (o_collisionRadius o) then o_collisionRadius o
            else o_width o * dec 5 1).

Lemma obstacleCollision_Some x y radius ignoreId o c :
  obstacleCollision x y radius ignoreId o = Some c ->
  (obstacleDistance x y o <? obstacleMinDistance radius o) = true
  /\ c = {| obstacle := ObjectCollider o;
            penetration := obstacleMinDistance radius o - obstacleDistance x y o;
            direction := ((o_x o - x) / obstacleDistance x y o,
                          (o_y o - y) / obstacleDistance x y o) |}.
Proof.
  unfold obstacleCollision, obstacleDistance, obstacleMinDistance.
  destruct (match ignoreId with Some i => _ | None => _ end); [done|].
  destruct (_ <? _) eqn:Hlt; [|done].
  by intros [= <-].
Qed.

(** The chunk of the query point, [Math.floor(x / (chunkSize * tileSize))]. *)
Definition queryChunk (wm : WorldManager N) (x : N) : Z :=
  floorZ (nfloor (x / (int (Z.of_nat (chunkSize wm)) * tileSize wm))).

Lemma checkCollision_Some wm x y radius ignoreId c :
  checkCollision wm x y radius ignoreId = Some c ->
  exists offsetX offsetY obstacles o,
    offsetX ∈ offsets /\ offsetY ∈ offsets
    /\ collisionMap wm !! _key (queryChunk wm x + offsetX) (queryChunk wm y + offsetY)
       = Some obstacles
    /\ o ∈ obstacles
    /\ obstacleCollision x y radius ignoreId o = Some c.
Proof.
  unfold checkCollision. intros Hc.
  apply firstHit_Some in Hc as (offsetX & HX & Hc).
  apply firstHit_Some in Hc as (offsetY & HY & Hc).
  fold (queryChunk wm x) (queryChunk wm y) in Hc.
  destruct (collisionMap wm !! _) as [obstacles|] eqn:Hm; [|done].
  apply firstHit_Some in Hc as (o & Ho & Hc).
  by exists offsetX, offsetY, obstacles, o.
Qed.


Lemma checkCollision_empty wm x y radius ignoreId :
  collisionMap wm = ∅ -> checkCollision wm x y radius ignoreId = None.
Proof.
  intros He. unfold checkCollision.
  apply firstHit_None. intros offsetX _. apply firstHit_None. intros offsetY _.
  by rewrite He, lookup_empty.
Qed.

(** The tile centre, distance and threshold of [_checkTerrainCollision]. *)
Definition tileCenter (wm : WorldManager N) (check : Z) : N :=
  int check * tileSize wm + tileSize wm / int 2.

Definition tileDistance (wm : WorldManager N) (x y : N) (checkX checkY : Z) : N :=
  nsqrt ((tileCenter wm checkX - x) * (tileCenter wm checkX - x)
         + (tileCenter wm checkY - y) * (tileCenter wm checkY - y)).

Lemma tileCollision_Some wm x y radius checkX checkY factor type tileType c :
  tileCollision wm x y radius checkX checkY factor type tileType = Some c ->
  (tileDistance wm x y checkX checkY <? radius + tileSize wm * factor) = true
  /\ c = {| obstacle := TileCollider type tileType (tileCenter wm checkX) (tileCenter wm checkY);
            penetration := radius + tileSize wm * factor - tileDistance wm x y checkX checkY;
            direction := ((tileCenter wm checkX - x) / tileDistance wm x y checkX checkY,
                          (tileCenter wm checkY - y) / tileDistance wm x y checkX checkY) |}.
Proof.
  unfold tileCollision, tileDistance, tileCenter.
  destruct (_ <? _) eqn:Hlt; [|done].
  by intros [= <-].
Qed.

Lemma getTileAtWorld_nonzero wm x y : fst (getTileAtWorld wm x y) <> 0%Z.
Proof.
  unfold getTileAtWorld.
  destruct (getChunk wm _ _) as [chunk wm'].
  destruct (_ || _); [done|].
  destruct (c_tiles chunk !! _) as [[| |]|]; done.
Qed.

Lemma terrainTileCheck_Some x y radius checkX checkY wm wm' c :
  terrainTileCheck x y radius checkX checkY wm = (Some c, wm') ->
  exists tileType factor type,
    tileType = fst (getTileAtWorld wm (int checkX * tileSize wm) (int checkY * tileSize wm))
    /\ wm' = snd (getTileAtWorld wm (int checkX * tileSize wm) (int checkY * tileSize wm))
    /\ tileCollision wm' x y radius checkX checkY factor type tileType = Some c
    /\ ((tileType ∈ collisionTiles /\ factor = dec 4 1 /\ type = _getTileName tileType)
        \/ (tileType = 1%Z /\ factor = dec 3 1 /\ type = "water"%string)).
Proof.
  unfold terrainTileCheck.
  pose proof (getTileAtWorld_nonzero wm (int checkX * tileSize wm) (int checkY * tileSize wm))
    as Hnz.
  destruct (getTileAtWorld wm _ _) as [tileType wm1]. simpl in Hnz.
  case_bool_decide as Hin.
  - destruct (tileCollision wm1 x y radius checkX checkY (dec 4 1) _ tileType) as [c'|] eqn:Hb.
    + intros [= <- <-]. exists tileType, (dec 4 1), (_getTileName tileType).
      repeat split; [done|]. by left.
    + assert ((tileType =? 0)%Z || (tileType =? 1)%Z = false) as ->.
      { unfold collisionTiles in Hin. set_unfold.
        destruct Hin as [->|[->|[->|[->|[->|[]]]]]]; done. }
      done.
  - destruct ((tileType =? 0)%Z || (tileType =? 1)%Z) eqn:Hw; [|done].
    intros [= Hc <-].
    assert (tileType = 1%Z) as -> by lia.
    exists 1%Z, (dec 3 1), "water"%string.
    repeat split; [done|]. by right.
Qed.

Lemma checkTerrainCollision_Some wm x y radius wm' c :
  _checkTerrainCollision wm x y radius = (Some c, wm') ->
  exists wm0 checkX checkY tileType factor type,
    tileType = fst (getTileAtWorld wm0 (int checkX * tileSize wm0) (int checkY * tileSize wm0))
    /\ wm' = snd (getTileAtWorld wm0 (int checkX * tileSize wm0) (int checkY * tileSize wm0))
    /\ tileCollision wm' x y radius checkX checkY factor type tileType = Some c
    /\ ((tileType ∈ collisionTiles /\ factor = dec 4 1 /\ type = _getTileName tileType)
        \/ (tileType = 1%Z /\ factor = dec 3 1 /\ type = "water"%string)).
Proof.
  unfold _checkTerrainCollision. intros Hc.
  apply firstHitIn_Some in Hc as (offsetX & wm1 & _ & Hc).
  apply firstHitIn_Some in Hc as (offsetY & wm0 & _ & Hc).
  apply terrainTileCheck_Some in Hc as (tileType & factor & type & Hc).
  exists wm0. do 5 eexists. exact Hc.
Qed.

End Collisions.

(** ** The chunk cache *)

Section Cache.
Context {N : Type} `{JSNumber N}.
Local Open Scope js_scope.

(** The jobs of the pool, and those of one chunk key. *)
Definition jobKey (j : Job N) : Z * Z := _key (j_cx j) (j_cy j).

Definition poolJobs (wm : WorldManager N) : list (Job N) := default [] (pool wm).

Definition inFlightJobs (wm : WorldManager N) (key : Z * Z) : list (Job N) :=
  filter (fun j => jobKey j = key) (poolJobs wm).

(** No two jobs of the pool are for the same chunk key, and the generation
    queue records each job of the pool under its key. *)
Definition queueTracksJobs (wm : WorldManager N) : Prop :=
  NoDup (jobKey <$> poolJobs wm)
  /\ (forall j, j ∈ poolJobs wm -> generationQueue wm !! jobKey j = Some (j_handle j)).

Lemma NoDup_fmap_filter_le {A B : Type} `{EqDecision B} (f : A -> B) (l : list A) (b : B) :
  NoDup (f <$> l) -> (length (filter (fun a => f a = b) l) <= 1)%nat.
Proof.
  induction l as [|a l IH]; simpl; [lia|].
  intros [Ha Hnd]%NoDup_cons. rewrite filter_cons.
  case_decide as Hb; [|by apply IH].
  simpl. destruct (filter (fun a => f a = b) l) as [|a' l'] eqn:Hf; [simpl; lia|].
  exfalso. apply Ha.
  assert (a' ∈ filter (fun a => f a = b) l) as [Hfa' Hin]%list_elem_of_filter
    by (rewrite Hf; left).
  rewrite Hb, <- Hfa'. by apply list_elem_of_fmap_2.
Qed.

Lemma inFlightJobs_at_most_one wm key :
  queueTracksJobs wm -> (length (inFlightJobs wm key) <= 1)%nat.
Proof. intros [Hnd _]. by apply NoDup_fmap_filter_le. Qed.

Lemma generateChunkAsync_in_flight wm cx cy handle :
  generationQueue wm !! _key cx cy = Some handle ->
  _generateChunkAsync wm cx cy = (InFlight handle, wm).
Proof. intros Hq. unfold _generateChunkAsync. by rewrite Hq. Qed.

Lemma postProcess_queue wm cx cy data :
  let wm' := snd (_postProcessGeneratedChunk wm cx cy data) in
  generationQueue wm' = generationQueue wm /\ pool wm' = pool wm
  /\ host_nextHandle wm' = host_nextHandle wm.
Proof.
  unfold _postProcessGeneratedChunk, _createCanvasForTiles.
  destruct (host_document wm); simpl; [|done].
  by destruct data.
Qed.

Lemma generateFallback_queue wm cx cy :
  let wm' := snd (generateFallback wm cx cy) in
  generationQueue wm' = generationQueue wm /\ pool wm' = pool wm.
Proof.
  unfold generateFallback.
  pose proof (postProcess_queue wm cx cy (Some (_generateChunkData wm cx cy))) as Hp.
  destruct (_postProcessGeneratedChunk _ _ _ _) as [chunk wm']. simpl in *. tauto.
Qed.

Lemma queueTracksJobs_eq wm wm' :
  generationQueue wm' = generationQueue wm -> pool wm' = pool wm ->
  queueTracksJobs wm -> queueTracksJobs wm'.
Proof. unfold queueTracksJobs, poolJobs. by intros -> ->. Qed.

Lemma generateChunkAsync_tracks wm cx cy :
  queueTracksJobs wm -> queueTracksJobs (snd (_generateChunkAsync wm cx cy)).
Proof.
  intros Hinv. unfold _generateChunkAsync.
  destruct (generationQueue wm !! _key cx cy) as [handle|] eqn:Hq; [done|].
  destruct (cachedChunk wm (_key cx cy)) as [existing|]; [done|].
  destruct (pool wm) as [jobs|] eqn:Hpool.
  - destruct Hinv as [Hnd Hrec]. unfold poolJobs in Hnd, Hrec. rewrite Hpool in Hnd, Hrec.
    simpl in Hnd, Hrec.
    split; unfold poolJobs; simpl.
    + rewrite fmap_app. apply NoDup_app. split; [done|]. split.
      * intros key [j [-> Hj]]%list_elem_of_fmap. simpl.
        intros [Hk|[]%elem_of_nil]%elem_of_cons.
        apply Hrec in Hj. unfold jobKey at 2 in Hk. simpl in Hk. congruence.
      * apply NoDup_singleton.
    + intros j [Hj|[->|[]%elem_of_nil]%elem_of_cons]%elem_of_app.
      * rewrite lookup_insert_ne; [by apply Hrec|].
        intros Hk. apply Hrec in Hj. rewrite <- Hk in Hj. congruence.
      * unfold jobKey. simpl. apply lookup_insert_eq.
  - pose proof (generateFallback_queue wm cx cy) as [Hg Hp].
    destruct (generateFallback wm cx cy) as [chunk wm']. simpl in *.
    by apply (queueTracksJobs_eq wm).
Qed.

End Cache.

Section Settle.
Context {N : Type} `{JSNumber N}.
Local Open Scope js_scope.

Lemma fmap_inj_on_NoDup {A B : Type} (f : A -> B) (l : list A) (a a' : A) :
  NoDup (f <$> l) -> a ∈ l -> a' ∈ l -> f a = f a' -> a = a'.
Proof.
  induction l as [|x l IH]; simpl; [by intros _ []%elem_of_nil|].
  intros [Hx Hnd]%NoDup_cons [->|Ha]%elem_of_cons [->|Ha']%elem_of_cons Hf; [done| | |by apply IH].
  - exfalso. apply Hx. rewrite Hf. by apply list_elem_of_fmap_2.
  - exfalso. apply Hx. rewrite <- Hf. by apply list_elem_of_fmap_2.
Qed.

Lemma takeJob_Some handle (jobs rest : list (Job N)) j :
  takeJob handle jobs = Some (j, rest) ->
  j ∈ jobs /\ j_handle j = handle
  /\ rest = filter (fun j => j_handle j <> handle) jobs.
Proof.
  unfold takeJob.
  destruct (filter (fun j => j_handle j = handle) jobs) as [|j' l] eqn:Hf; [done|].
  intros [= <- <-].
  assert (j' ∈ filter (fun j => j_handle j = handle) jobs) as [Hh Hin]%list_elem_of_filter
    by (rewrite Hf; left).
  done.
Qed.

(** Removing the settled job and its queue entry keeps the queue in step with
    the pool. *)
Lemma settle_tracks (wm : WorldManager N) handle jobs j rest :
  queueTracksJobs wm -> pool wm = Some jobs -> takeJob handle jobs = Some (j, rest) ->
  queueTracksJobs
    (set_generationQueue (delete (jobKey j))
       (set_pool (Some rest) (host_nextHandle wm) wm)).
Proof.
  intros [Hnd Hrec] Hpool (Hj & Hh & ->)%takeJob_Some.
  unfold poolJobs in Hnd, Hrec. rewrite Hpool in Hnd, Hrec. simpl in Hnd, Hrec.
  split; unfold poolJobs; simpl.
  - eapply sublist_NoDup; [exact Hnd|]. apply fmap_sublist, sublist_filter.
  - intros j' [Hh' Hj']%list_elem_of_filter.
    rewrite lookup_delete_ne; [by apply Hrec|].
    intros Hk. apply (fmap_inj_on_NoDup jobKey jobs j j') in Hk; [|done..].
    congruence.
Qed.

Lemma jobFulfilled_tracks (wm : WorldManager N) handle result :
  queueTracksJobs wm -> queueTracksJobs (jobFulfilled wm handle result).
Proof.
  intros Hinv. unfold jobFulfilled.
  destruct (pool wm) as [jobs|] eqn:Hpool; [|done].
  destruct (takeJob handle jobs) as [[j rest]|] eqn:Ht; [|done].
  pose proof (settle_tracks wm handle jobs j rest Hinv Hpool Ht) as [Hnd Hrec].
  set (wm1 := set_pool (Some rest) (host_nextHandle wm) wm) in *.
  pose proof (postProcess_queue wm1 (j_cx j) (j_cy j) (Some result)) as (Hq & Hp & _).
  destruct (_postProcessGeneratedChunk wm1 _ _ _) as [chunk wm2]. simpl in *.
  split; unfold poolJobs; simpl; rewrite ?Hp, ?Hq; [exact Hnd|exact Hrec].
Qed.

Lemma jobRejected_tracks (wm : WorldManager N) handle :
  queueTracksJobs wm -> queueTracksJobs (jobRejected wm handle).
Proof.
  intros Hinv. unfold jobRejected.
  destruct (pool wm) as [jobs|] eqn:Hpool; [|done].
  destruct (takeJob handle jobs) as [[j rest]|] eqn:Ht; [|done].
  pose proof (settle_tracks wm handle jobs j rest Hinv Hpool Ht) as Hs.
  set (wm1 := set_generationQueue _ _) in *.
  pose proof (generateFallback_queue wm1 (j_cx j) (j_cy j)) as [Hq Hp].
  by apply (queueTracksJobs_eq wm1).
Qed.

Lemma getChunk_tracks (wm : WorldManager N) cx cy :
  queueTracksJobs wm -> queueTracksJobs (snd (getChunk wm cx cy)).
Proof.
  intros Hinv. unfold getChunk.
  destruct (cachedChunk wm (_key cx cy)) as [chunk|]; [done|].
  pose proof (postProcess_queue wm cx cy None) as (Hq & Hp & _).
  destruct (_postProcessGeneratedChunk wm cx cy None) as [placeholder wm1]. simpl in *.
  apply generateChunkAsync_tracks. by apply (queueTracksJobs_eq wm).
Qed.

End Settle.

Section Eviction.
Context {N : Type} `{JSNumber N}.
Local Open Scope js_scope.

(** The keys [unloadFarChunks] collects in [toRemove]. *)
Definition farKeys (wm : WorldManager N) (centerCx centerCy radius : Z) : list (Z * Z) :=
  List.map fst
    (List.filter (fun kc => chebyshevFar centerCx centerCy radius (snd kc))
       (map_to_list (chunks wm))).

Lemma farKeys_spec (wm : WorldManager N) centerCx centerCy radius key :
  key ∈ farKeys wm centerCx centerCy radius
  <-> exists chunk, chunks wm !! key = Some chunk
                    /\ chebyshevFar centerCx centerCy radius chunk = true.
Proof.
  unfold farKeys. rewrite list_elem_of_In, in_map_iff. split.
  - intros ([k chunk] & <- & [Hin Hfar]%filter_In).
    apply list_elem_of_In, elem_of_map_to_list in Hin. by exists chunk.
  - intros (chunk & Hl & Hfar). exists (key, chunk). split; [done|].
    apply filter_In. split; [|done].
    by apply list_elem_of_In, elem_of_map_to_list.
Qed.

Lemma evict_fold (keys : list (Z * Z)) (wm : WorldManager N) (key : Z * Z) :
  let wm' := fold_left
               (fun wm key => set_collisionMap (delete key) (set_chunks (delete key) wm))
               keys wm in
  chunks wm' !! key = (if decide (key ∈ keys) then None else chunks wm !! key)
  /\ collisionMap wm' !! key
     = (if decide (key ∈ keys) then None else collisionMap wm !! key)
  /\ generationQueue wm' = generationQueue wm.
Proof.
  cbv zeta. revert wm. induction keys as [|k keys IH]; intros wm; cbn [fold_left].
  - rewrite !decide_False by apply not_elem_of_nil. done.
  - destruct (IH (set_collisionMap (delete k) (set_chunks (delete k) wm)))
      as (Hc & Hm & Hq).
    rewrite Hc, Hm, Hq. cbn [set_collisionMap set_chunks chunks collisionMap generationQueue].
    split; [|split; [|done]].
    + destruct (decide (key ∈ keys)) as [Hin|Hnin].
      * rewrite decide_True; [done|by right].
      * destruct (decide (key = k)) as [->|Hne].
        -- rewrite decide_True by left. apply lookup_delete_eq.
        -- rewrite decide_False by (intros [?|?]%elem_of_cons; done).
           by apply lookup_delete_ne.
    + destruct (decide (key ∈ keys)) as [Hin|Hnin].
      * rewrite decide_True; [done|by right].
      * destruct (decide (key = k)) as [->|Hne].
        -- rewrite decide_True by left. apply lookup_delete_eq.
        -- rewrite decide_False by (intros [?|?]%elem_of_cons; done).
           by apply lookup_delete_ne.
Qed.

Lemma chebyshevFar_false centerCx centerCy radius (chunk : Chunk N) :
  chebyshevFar centerCx centerCy radius chunk = false
  <-> (Z.max (Z.abs (c_cx chunk - centerCx)) (Z.abs (c_cy chunk - centerCy)) <= radius)%Z.
Proof. unfold chebyshevFar. rewrite orb_false_iff, !Z.ltb_ge. lia. Qed.

(** C7: after [unloadFarChunks] every chunk left in the cache is within
    Chebyshev distance [radius] of the centre, and every chunk that was
    evicted has no entry left in the collision registry; the chunks that stay
    keep their cache entry and their registry entry. *)
Theorem unloadFarChunks_evicts (wm : WorldManager N) (centerCx centerCy radius : Z) :
  let wm' := unloadFarChunks wm centerCx centerCy radius in
  (forall key chunk, chunks wm' !! key = Some chunk ->
     (Z.max (Z.abs (c_cx chunk - centerCx)) (Z.abs (c_cy chunk - centerCy)) <= radius)%Z
     /\ chunks wm !! key = Some chunk
     /\ collisionMap wm' !! key = collisionMap wm !! key)
  /\ (forall key chunk, chunks wm !! key = Some chunk -> chunks wm' !! key = None ->
        (radius < Z.max (Z.abs (c_cx chunk - centerCx)) (Z.abs (c_cy chunk - centerCy)))%Z
        /\ collisionMap wm' !! key = None).
Proof.
  cbv zeta. unfold unloadFarChunks. fold (farKeys wm centerCx centerCy radius).
  split.
  - intros key chunk Hl.
    destruct (evict_fold (farKeys wm centerCx centerCy radius) wm key) as (Hc & Hm & _).
    rewrite Hc in Hl. rewrite Hm.
    destruct (decide (key ∈ farKeys wm centerCx centerCy radius)) as [Hin|Hnin]; [done|].
    split; [|done].
    apply chebyshevFar_false.
    destruct (chebyshevFar centerCx centerCy radius chunk) eqn:Hfar; [|done].
    exfalso. apply Hnin, farKeys_spec. by exists chunk.
  - intros key chunk Hl Hgone.
    destruct (evict_fold (farKeys wm centerCx centerCy radius) wm key) as (Hc & Hm & _).
    rewrite Hc in Hgone. rewrite Hm.
    destruct (decide (key ∈ farKeys wm centerCx centerCy radius)) as [Hin|Hnin];
      [|congruence].
    split; [|done].
    apply farKeys_spec in Hin as (chunk' & Hl' & Hfar).
    assert (chunk' = chunk) as -> by congruence.
    unfold chebyshevFar in Hfar.
    apply orb_true_iff in Hfar as [Hfar%Z.ltb_lt|Hfar%Z.ltb_lt]; lia.
Qed.

End Eviction.

Section Claims.
Context {N : Type} `{JSNumber N}.
Variable seedStringToNumber : string -> Z.
Local Open Scope js_scope.

(** C5: [setSeed] and [setNoiseConfig] empty the chunk cache and the
    generation queue but leave the collision registry as it was, so
    [checkCollision] still answers from the obstacles of the previous
    configuration. *)
Theorem reconfiguration_keeps_collision_registry
    (wm : WorldManager N) (s : string) (cfg : NoiseConfigPatch N) :
  (chunks (setSeed seedStringToNumber wm s) = ∅
   /\ generationQueue (setSeed seedStringToNumber wm s) = ∅
   /\ collisionMap (setSeed seedStringToNumber wm s) = collisionMap wm)
  /\ (chunks (setNoiseConfig wm cfg) = ∅
      /\ generationQueue (setNoiseConfig wm cfg) = ∅
      /\ collisionMap (setNoiseConfig wm cfg) = collisionMap wm)
  /\ (forall x y radius ignoreId,
        checkCollision (setSeed seedStringToNumber wm s) x y radius ignoreId
        = checkCollision wm x y radius ignoreId
        /\ checkCollision (setNoiseConfig wm cfg) x y radius ignoreId
           = checkCollision wm x y radius ignoreId).
Proof. repeat split. Qed.

(** The tile and chunk that [getTileAtWorld] computes for a coordinate. *)
Definition worldTile (wm : WorldManager N) (x : N) : N := nfloor (x / tileSize wm).
Definition tileChunk (wm : WorldManager N) (t : N) : N :=
  nfloor (t / int (Z.of_nat (chunkSize wm))).
Definition localTile (wm : WorldManager N) (x : N) : Z :=
  (floorZ (worldTile wm x)
   - floorZ (tileChunk wm (worldTile wm x)) * Z.of_nat (chunkSize wm))%Z.

(** C10: [getTileAtWorld] never returns 0; where the chunk it reads stores 0
    at the queried tile it returns 4; hence [_checkTerrainCollision] never
    reports a tile of type 0. *)
Theorem getTileAtWorld_never_deep_ocean (wm : WorldManager N) (x y : N) :
  fst (getTileAtWorld wm x y) <> 0%Z
  /\ (let chunk := fst (getChunk wm (floorZ (tileChunk wm (worldTile wm x)))
                          (floorZ (tileChunk wm (worldTile wm y)))) in
      (0 <= localTile wm x < Z.of_nat (chunkSize wm))%Z ->
      (0 <= localTile wm y < Z.of_nat (chunkSize wm))%Z ->
      c_tiles chunk !! Z.to_nat (localTile wm y * Z.of_nat (chunkSize wm) + localTile wm x)
      = Some 0%Z ->
      fst (getTileAtWorld wm x y) = 4%Z)
  /\ (forall radius c wm',
        _checkTerrainCollision wm x y radius = (Some c, wm') ->
        exists type tileType centerX centerY,
          obstacle c = TileCollider type tileType centerX centerY /\ tileType <> 0%Z).
Proof.
  split; [apply getTileAtWorld_nonzero|]. split.
  - cbv zeta. unfold getTileAtWorld, localTile, tileChunk, worldTile.
    pose proof (getChunk_config wm
                  (floorZ (nfloor (nfloor (x / tileSize wm) / int (Z.of_nat (chunkSize wm)))))
                  (floorZ (nfloor (nfloor (y / tileSize wm) / int (Z.of_nat (chunkSize wm))))))
      as Hg.
    destruct (getChunk wm _ _) as [chunk wm1]. simpl in *.
    injection Hg as Hsize _ _ _. rewrite Hsize.
    intros Hx Hy Hzero.
    destruct (_ || _) eqn:Hb; [done|]. by rewrite Hzero.
  - intros radius c wm' Hc.
    apply checkTerrainCollision_Some in Hc
      as (wm0 & checkX & checkY & tileType & factor & type & Ht & _ & Hc & _).
    apply tileCollision_Some in Hc as [_ ->]. simpl.
    exists type, tileType, (tileCenter wm' checkX), (tileCenter wm' checkY).
    split; [done|]. rewrite Ht. apply getTileAtWorld_nonzero.
Qed.

End Claims.

(** * Exact arithmetic: the real-number instance *)

Section RealArithmetic.
#[local] Existing Instance RealNumber.
Local Open Scope R_scope.

Lemma chunkRNG_numerator (state : Z) :
  (0 <= Z.land state 0x7fffffff <= 0x7fffffff)%Z.
Proof.
  change 0x7fffffff%Z with (Z.ones 31). rewrite Z.land_ones by lia.
  pose proof (Z.mod_pos_bound state (2 ^ 31) ltac:(lia)) as Hb.
  change (Z.ones 31) with (2 ^ 31 - 1)%Z. lia.
Qed.

Lemma quotient_in_unit_interval (k q : Z) :
  (0 <= k <= q)%Z -> (0 < q)%Z ->
  0 <= IZR k / IZR q <= 1 /\ (IZR k / IZR q = 1 <-> k = q).
Proof.
  intros [Hk Hkq] Hq.
  assert (0 < IZR q) as Hq' by (apply (IZR_lt 0); lia).
  assert (0 <= IZR k) as Hk' by (apply (IZR_le 0); lia).
  assert (IZR k <= IZR q) as Hkq' by (apply IZR_le; lia).
  split; [split|split].
  - apply Rmult_le_pos; [done|]. left. by apply Rinv_0_lt_compat.
  - apply (Rmult_le_reg_r (IZR q)); [done|].
    unfold Rdiv. rewrite Rmult_assoc, Rinv_l by lra. lra.
  - intros Hone. apply eq_IZR.
    apply (Rmult_eq_compat_r (IZR q)) in Hone.
    unfold Rdiv in Hone. rewrite Rmult_assoc, Rinv_l in Hone by lra. lra.
  - intros ->. unfold Rdiv. apply Rinv_r. lra.
Qed.

(** C9, as amended: every value drawn from the generator of a chunk lies in
    the closed interval from 0 to 1; the value is 1 exactly when the low 31
    bits of the new state are all ones. *)
Theorem chunk_rng_in_closed_unit_interval (wm : WorldManager R) (cx cy : Z) (n : nat) :
  let state := chunkRNGState (N:=R) (chunkRNGSeed wm cx cy) (S n) in
  let value := chunkRNGValue (N:=R) (chunkRNGSeed wm cx cy) n in
  0 <= value <= 1
  /\ (value = 1 <-> Z.land state 0x7fffffff = 0x7fffffff%Z).
Proof.
  cbv zeta. unfold chunkRNGValue. simpl chunkRNGState. unfold chunkRNGNext at 1 3.
  cbn [fst snd].
  set (state' := toInt32 (imul (toInt32 (imul _ _)) _)).
  apply (quotient_in_unit_interval (Z.land state' 0x7fffffff) 0x7fffffff);
    [apply chunkRNG_numerator|done].
Qed.

End RealArithmetic.

(** ** The direction of a collision *)

Section Direction.
Context {N : Type} `{JSNumber N}.
Local Open Scope js_scope.

Definition dot (u v : N * N) : N := fst u * fst v + snd u * snd v.

(** [d] has unit length and a positive component along the vector from
    [source] to [target]. *)
Definition unitToward (source target d : N * N) : Prop :=
  (dot d d =? int 1) = true
  /\ (int 0 <? dot d (fst target - fst source, snd target - snd source)) = true.

(** The direction of every collision of [checkCollision] at [(x, y)] with an
    obstacle at nonzero distance points from the obstacle to the query
    point. *)
Definition directionAwayFromObstacle (wm : WorldManager N) (x y radius : N)
    (ignoreId : option ObstacleId) : Prop :=
  forall c o,
    checkCollision wm x y radius ignoreId = Some c ->
    obstacle c = ObjectCollider o ->
    (obstacleDistance x y o =? int 0) = false ->
    unitToward (o_x o, o_y o) (x, y) (direction c).

(** The same with the two ends exchanged: from the query point to the
    obstacle. *)
Definition directionTowardObstacle (wm : WorldManager N) (x y radius : N)
    (ignoreId : option ObstacleId) : Prop :=
  forall c o,
    checkCollision wm x y radius ignoreId = Some c ->
    obstacle c = ObjectCollider o ->
    (obstacleDistance x y o =? int 0) = false ->
    unitToward (x, y) (o_x o, o_y o) (direction c).

Lemma checkCollision_single wm x y radius ignoreId o c :
  collisionMap wm = {[ _key (queryChunk wm x) (queryChunk wm y) := [o] ]} ->
  obstacleCollision x y radius ignoreId o = Some c ->
  checkCollision wm x y radius ignoreId = Some c.
Proof.
  intros Hm Hc. unfold checkCollision.
  fold (queryChunk wm x) (queryChunk wm y). rewrite Hm.
  unfold offsets, _key. cbn [firstHit].
  rewrite !lookup_singleton_ne by (intros [= ? ?]; lia).
  replace (queryChunk wm x + 0, queryChunk wm y + 0)%Z
    with (queryChunk wm x, queryChunk wm y) by (f_equal; lia).
  rewrite lookup_singleton_eq. cbn [firstHit]. by rewrite Hc.
Qed.

End Direction.

Section RealDirection.
#[local] Existing Instance RealNumber.
Local Open Scope R_scope.

Lemma Rltb_true a b : Rltb a b = true <-> a < b.
Proof. unfold Rltb. destruct (Rlt_dec a b); split; intros Hx; first [done | exfalso; lra]. Qed.

Lemma Rltb_false a b : Rltb a b = false <-> ~ a < b.
Proof. unfold Rltb. destruct (Rlt_dec a b); split; intros Hx; first [done | exfalso; lra]. Qed.

Lemma Reqb_true a b : Reqb a b = true <-> a = b.
Proof. unfold Reqb. destruct (Req_dec_T a b); split; intros Hx; first [done | exfalso; lra]. Qed.

Lemma Reqb_false a b : Reqb a b = false <-> a <> b.
Proof. unfold Reqb. destruct (Req_dec_T a b); split; intros Hx; first [done | exfalso; lra]. Qed.

Lemma Int_part_between (r : R) (z : Z) : IZR z <= r < IZR z + 1 -> Int_part r = z.
Proof. intros Hr. symmetry. apply Int_part_spec. lra. Qed.

Lemma real_unit_direction (dx dy : R) :
  sqrt (dx * dx + dy * dy) <> 0 ->
  let d := sqrt (dx * dx + dy * dy) in
  dx / d * (dx / d) + dy / d * (dy / d) = 1
  /\ dx / d * dx + dy / d * dy = d
  /\ 0 < d.
Proof.
  intros Hd d.
  assert (0 <= dx * dx + dy * dy) as Hs by nra.
  pose proof (sqrt_sqrt _ Hs) as Hsq. fold d in Hsq, Hd.
  pose proof (sqrt_pos (dx * dx + dy * dy)) as Hpos. fold d in Hpos.
  split; [|split; [|lra]].
  - replace (dx / d * (dx / d) + dy / d * (dy / d))
      with ((dx * dx + dy * dy) / (d * d)) by (field; lra).
    rewrite Hsq. field. rewrite <- Hsq. nra.
  - replace (dx / d * dx + dy / d * dy) with ((dx * dx + dy * dy) / d) by (field; lra).
    rewrite <- Hsq. field. lra.
Qed.

(** C2, as amended: in exact arithmetic the direction of a collision that
    [checkCollision] reports with an obstacle at nonzero distance is the
    vector from the query point to the obstacle centre divided by the
    distance: a unit vector pointing from the query point toward the
    obstacle. *)
Theorem collision_direction_toward_obstacle
    (wm : WorldManager R) (x y radius : R) (ignoreId : option ObstacleId)
    (c : Collision R) :
  checkCollision wm x y radius ignoreId = Some c ->
  exists o,
    obstacle c = ObjectCollider o
    /\ (obstacleDistance x y o <> 0 ->
        direction c = ((o_x o - x) / obstacleDistance x y o,
                       (o_y o - y) / obstacleDistance x y o)
        /\ fst (direction c) * fst (direction c)
           + snd (direction c) * snd (direction c) = 1
        /\ fst (direction c) * (o_x o - x) + snd (direction c) * (o_y o - y)
           = obstacleDistance x y o
        /\ 0 < obstacleDistance x y o
        /\ unitToward (x, y) (o_x o, o_y o) (direction c)).
Proof.
  intros Hc.
  apply checkCollision_Some in Hc as (offsetX & offsetY & obstacles & o & _ & _ & _ & _ & Hc).
  apply obstacleCollision_Some in Hc as [_ ->].
  exists o. split; [done|]. intros Hd. cbn [direction fst snd].
  destruct (real_unit_direction (o_x o - x) (o_y o - y) Hd) as (Hunit & Hdot & Hpos).
  split; [done|]. split; [exact Hunit|]. split; [exact Hdot|]. split; [exact Hpos|].
  split; cbn.
  - apply Reqb_true. exact Hunit.
  - apply Rltb_true. unfold obstacleDistance in Hdot, Hpos. cbn in Hdot, Hpos. lra.
Qed.

End RealDirection.

(** ** What [checkCollision] consults *)

Section Layers.
Context {N : Type} `{JSNumber N}.
Local Open Scope js_scope.


End Layers.

(** ** When the two queries report a collision *)


Section Reports.
Context {N : Type} `{JSNumber N}.
Local Open Scope js_scope.










Lemma getTileAtWorld_state (wm : WorldManager N) x y :
  snd (getTileAtWorld wm x y)
  = snd (getChunk wm (floorZ (tileChunk wm (worldTile wm x)))
           (floorZ (tileChunk wm (worldTile wm y)))).
Proof.
  unfold getTileAtWorld, tileChunk, worldTile.
  destruct (getChunk wm _ _) as [chunk wm1]. simpl.
  destruct (_ || _); [done|].
  by destruct (c_tiles chunk !! _) as [[| |]|].
Qed.







Lemma terrainTileCheck_state (wm : WorldManager N) x y radius checkX checkY :
  snd (terrainTileCheck x y radius checkX checkY wm)
  = snd (getTileAtWorld wm (int checkX * tileSize wm) (int checkY * tileSize wm)).
Proof.
  unfold terrainTileCheck.
  destruct (getTileAtWorld wm _ _) as [tileType wm1]. simpl.
  destruct (if bool_decide _ then _ else _); [done|].
  by destruct (_ || _).
Qed.

Lemma firstHitIn_preserves {A B : Type} (P : WorldManager N -> Prop)
    (body : WorldManager N -> A -> option B * WorldManager N) (l : list A)
    (wm : WorldManager N) :
  (forall wm a, P wm -> P (snd (body wm a))) ->
  P wm -> P (snd (firstHitIn body l wm)).
Proof.
  intros Hbody. revert wm. induction l as [|a l IH]; intros wm HP; simpl; [done|].
  pose proof (Hbody wm a HP) as Hstep.
  destruct (body wm a) as [[b|] wm1]; simpl in *; [done|]. by apply IH.
Qed.



End Reports.

Section TwoLayers.
Context {N : Type} `{JSNumber N}.
Local Open Scope js_scope.


(** ** Generation requests along an execution *)

(** The calls that a client and the pool make on a manager, apart from
    [setSeed], [setNoiseConfig] and [clearChunk].  The remaining methods only
    read the manager ([checkCollision], [getNearbyObstacles]) or are
    sequences of these calls ([getChunksInRect], [getPlayerTileInfo],
    [logTerrainInfo]); the administration of the pool ([setPoolSize],
    [dispose]) is not part of an execution here. *)
Inductive Operation :=
  | CallGenerateChunkAsync (cx cy : Z)
  | CallGetChunk (cx cy : Z)
  | CallGetTileAtWorld (x y : N)
  | CallCheckTerrainCollision (x y radius : N)
  | CallUnloadFarChunks (centerCx centerCy radius : Z)
  | JobFulfilled (handle : nat) (result : ChunkData N)
  | JobRejected (handle : nat).

Definition perform (wm : WorldManager N) (op : Operation) : WorldManager N :=
  match op with
  | CallGenerateChunkAsync cx cy => snd (_generateChunkAsync wm cx cy)
  | CallGetChunk cx cy => snd (getChunk wm cx cy)
  | CallGetTileAtWorld x y => snd (getTileAtWorld wm x y)
  | CallCheckTerrainCollision x y radius => snd (_checkTerrainCollision wm x y radius)
  | CallUnloadFarChunks centerCx centerCy radius =>
      unloadFarChunks wm centerCx centerCy radius
  | JobFulfilled handle result => jobFulfilled wm handle result
  | JobRejected handle => jobRejected wm handle
  end.

Definition execute (wm : WorldManager N) (ops : list Operation) : WorldManager N :=
  fold_left perform ops wm.

(** At most one job of the pool for any chunk key. *)
Definition atMostOneInFlight (wm : WorldManager N) : Prop :=
  forall key, (length (inFlightJobs wm key) <= 1)%nat.

Lemma getTileAtWorld_tracks (wm : WorldManager N) x y :
  queueTracksJobs wm -> queueTracksJobs (snd (getTileAtWorld wm x y)).
Proof. intros Hinv. rewrite getTileAtWorld_state. by apply getChunk_tracks. Qed.

Lemma checkTerrainCollision_tracks (wm : WorldManager N) x y radius :
  queueTracksJobs wm -> queueTracksJobs (snd (_checkTerrainCollision wm x y radius)).
Proof.
  intros Hinv. unfold _checkTerrainCollision.
  apply (firstHitIn_preserves queueTracksJobs); [|done].
  intros wm1 offsetX H1. apply (firstHitIn_preserves queueTracksJobs); [|done].
  intros wm2 offsetY H2. rewrite terrainTileCheck_state. by apply getTileAtWorld_tracks.
Qed.

Lemma evict_fold_pool (keys : list (Z * Z)) (wm : WorldManager N) :
  pool (fold_left
          (fun wm key => set_collisionMap (delete key) (set_chunks (delete key) wm))
          keys wm) = pool wm.
Proof.
  revert wm. induction keys as [|k keys IH]; intros wm; cbn [fold_left]; [done|].
  by rewrite IH.
Qed.

Lemma unloadFarChunks_tracks (wm : WorldManager N) centerCx centerCy radius :
  queueTracksJobs wm -> queueTracksJobs (unloadFarChunks wm centerCx centerCy radius).
Proof.
  apply queueTracksJobs_eq.
  - unfold unloadFarChunks. fold (farKeys wm centerCx centerCy radius).
    by destruct (evict_fold (farKeys wm centerCx centerCy radius) wm (0, 0)%Z)
      as (_ & _ & Hq).
  - apply evict_fold_pool.
Qed.

Lemma perform_tracks (wm : WorldManager N) (op : Operation) :
  queueTracksJobs wm -> queueTracksJobs (perform wm op).
Proof.
  intros Hinv. destruct op; simpl.
  - by apply generateChunkAsync_tracks.
  - by apply getChunk_tracks.
  - by apply getTileAtWorld_tracks.
  - by apply checkTerrainCollision_tracks.
  - by apply unloadFarChunks_tracks.
  - by apply jobFulfilled_tracks.
  - by apply jobRejected_tracks.
Qed.

Lemma execute_tracks (wm : WorldManager N) (ops : list Operation) :
  queueTracksJobs wm -> queueTracksJobs (execute wm ops).
Proof.
  unfold execute. revert wm. induction ops as [|op ops IH]; intros wm Hinv; simpl; [done|].
  by apply IH, perform_tracks.
Qed.

Lemma no_jobs_tracks (wm : WorldManager N) : poolJobs wm = [] -> queueTracksJobs wm.
Proof.
  intros Hnone. unfold queueTracksJobs. rewrite Hnone.
  split; [apply NoDup_nil_2|]. by intros j Hj%elem_of_nil.
Qed.

(** C6, as amended: a call of [_generateChunkAsync] for a key recorded in the
    generation queue returns the recorded handle and changes nothing, so it
    dispatches no job, and a job is dispatched only for a key that the queue
    does not hold.  Starting with no job in the pool, after any sequence of
    calls of [_generateChunkAsync], [getChunk], [getTileAtWorld],
    [_checkTerrainCollision] and [unloadFarChunks] and of settlements of
    jobs, the pool holds at most one job for any chunk key and the queue
    records the handle of each job of the pool under its key. *)
Theorem generation_deduplicated (wm : WorldManager N) (cx cy : Z) :
  (forall handle, generationQueue wm !! _key cx cy = Some handle ->
     _generateChunkAsync wm cx cy = (InFlight handle, wm))
  /\ (forall handle, fst (_generateChunkAsync wm cx cy) = Dispatched handle ->
        generationQueue wm !! _key cx cy = None
        /\ generationQueue (snd (_generateChunkAsync wm cx cy)) !! _key cx cy = Some handle)
  /\ (poolJobs wm = [] ->
      forall ops : list Operation,
        atMostOneInFlight (execute wm ops)
        /\ forall j, j ∈ poolJobs (execute wm ops) ->
             generationQueue (execute wm ops) !! jobKey j = Some (j_handle j)).
Proof.
  split; [intros handle; apply generateChunkAsync_in_flight|]. split.
  - intros handle. unfold _generateChunkAsync.
    destruct (generationQueue wm !! _key cx cy) as [h|] eqn:Hq; [done|].
    destruct (cachedChunk wm (_key cx cy)) as [existing|]; [done|].
    destruct (pool wm) as [jobs|].
    + simpl. intros [= <-]. split; [done|]. apply lookup_insert_eq.
    + by destruct (generateFallback wm cx cy).
  - intros Hnone ops.
    pose proof (execute_tracks wm ops (no_jobs_tracks wm Hnone)) as Hinv.
    split; [intros key; by apply inFlightJobs_at_most_one|].
    by destruct Hinv as [_ Hrec].
Qed.

End TwoLayers.

Arguments Operation N : clear implicits.

(** * Binary64 evaluation *)

(** ** Zero distance *)

Lemma f64_finite_cases (x : float) :
  is_finite x = true ->
  (exists s, Prim2SF x = S754_zero s) \/ (exists s m e, Prim2SF x = S754_finite s m e).
Proof.
  unfold is_finite, is_nan, is_infinity.
  rewrite !FloatAxioms.eqb_spec, FloatAxioms.abs_spec.
  destruct (Prim2SF x) as [s|s| |s m e] eqn:E.
  - intros _. left. by exists s.
  - by destruct s.
  - done.
  - intros _. right. by exists s, m, e.
Qed.

Lemma f64_sub_diag (x : float) : is_finite x = true -> (x - x)%float = 0%float.
Proof.
  intros Hx. apply Prim2SF_inj. rewrite FloatAxioms.sub_spec.
  destruct (f64_finite_cases x Hx) as [[s ->]|(s & m & e & ->)].
  - by destruct s.
  - unfold SF64sub, SFsub. rewrite Z.sub_diag. reflexivity.
Qed.

Section AnyEngine.
Context (sin : float -> float).
#[local] Instance engineNumber : JSNumber float := FloatNumber sin.

(** C3, as amended: neither query guards the division by the distance; when
    the query point (with finite coordinates) coincides with the centre of
    the obstacle or tile that is reported, both components of the direction
    are [0 / 0], which is [NaN]. *)
Theorem coincident_centre_direction_nan (wm : WorldManager float) (x y radius : float) :
  is_finite x = true -> is_finite y = true ->
  (forall ignoreId c o,
     checkCollision wm x y radius ignoreId = Some c ->
     obstacle c = ObjectCollider o -> o_x o = x -> o_y o = y ->
     direction c = (nan, nan))
  /\ (forall c wm' type tileType,
        _checkTerrainCollision wm x y radius = (Some c, wm') ->
        obstacle c = TileCollider type tileType x y ->
        direction c = (nan, nan)).
Proof.
  intros Hx Hy. split.
  - intros ignoreId c o Hc Ho Hox Hoy.
    apply checkCollision_Some in Hc as (offsetX & offsetY & obstacles & o' & _ & _ & _ & _ & Hc).
    apply obstacleCollision_Some in Hc as [_ ->].
    cbn [obstacle] in Ho. injection Ho as ->.
    cbn [direction]. unfold obstacleDistance. rewrite Hox, Hoy.
    cbn [nsub nadd nmul ndiv nsqrt engineNumber FloatNumber].
    rewrite !f64_sub_diag by done. reflexivity.
  - intros c wm' type tileType Hc Ho.
    apply checkTerrainCollision_Some in Hc
      as (wm0 & checkX & checkY & tt & factor & ty & _ & _ & Hc & _).
    apply tileCollision_Some in Hc as [_ ->].
    cbn [obstacle] in Ho.
    assert (tileCenter wm' checkX = x /\ tileCenter wm' checkY = y) as [Hcx Hcy]
      by (by injection Ho).
    cbn [direction]. unfold tileDistance. rewrite Hcx, Hcy.
    cbn [nsub nadd nmul ndiv nsqrt engineNumber FloatNumber].
    rewrite !f64_sub_diag by done. reflexivity.
Qed.
End AnyEngine.

(** ** A manager in a browser *)

(** A stand-in for the engine's [Math.sin], needed to run the synthesis; no
    statement below depends on the values it returns. *)
Definition hostSin (x : float) : float :=
  (x - x * x * x / 6 + x * x * x * x * x / 120)%float.

Definition HostNumber : JSNumber float := FloatNumber hostSin.

(** A stand-in for [seedStringToNumber]. *)
Definition seedHash (s : string) : Z := Z.of_nat (String.length s).

Section Browser.
#[local] Existing Instance HostNumber.
Local Open Scope float_scope.

(** The defaults of the constructor, with chunks of 2 by 2 tiles. *)
Definition defaultNoise : NoiseConfig float :=
  {| scale := dec 15 3; octaves := 5; lacunarity := dec 21 1; gain := dec 45 2;
     heightWeight := dec 12 1; moistureWeight := dec 8 1;
     temperatureWeight := dec 6 1 |}.

Definition freshManager : WorldManager float :=
  {| chunkSize := 2; tileSize := 32; seed := "seed"; seedNum := seedHash "seed";
     chunks := ∅; collisionMap := ∅; noiseConfig := defaultNoise;
     generationQueue := ∅; _generationId := 0; pool := Some [];
     host_document := true; host_now := 0; host_nextHandle := 0 |}.

(** After [_generateChunkAsync(0, 0)]: one job in the pool, handle 0. *)
Definition dispatchedManager : WorldManager float :=
  snd (_generateChunkAsync freshManager 0 0).

(** What the worker answers: forest, mountain, deep ocean and grass. *)
Definition workerResult : ChunkData float :=
  {| cd_tiles := [5; 7; 0; 4]%Z;
     cd_biomeData := {| bd_height := [0.5; 0.75; 0.03125; 0.25];
                        bd_moisture := [0.75; 0.5; 0.5; 0.25];
                        bd_temperature := [0.5; 0.5; 0.5; 0.5] |} |}.

(** After the job is fulfilled: chunk (0, 0) is cached with its canvas, and
    the decoration has registered one tree, on the forest tile, centred at
    (16, 16). *)
Definition loadedManager : WorldManager float :=
  jobFulfilled dispatchedManager 0 workerResult.

Definition loadedTree : Obstacle float :=
  {| o_width := 0x1.4b3ad6e3c5905p+5; o_height := 0x1.339210aeee4f2p+6;
     o_type := "tree"; o_x := 16; o_y := 16; o_id := ((0, 0)%Z, 0%nat, 0%nat);
     o_collisionRadius := 0x1.ec1ce77e4a184p+4 |}.

Example loadedManager_registry :
  collisionMap loadedManager = {[ (0, 0)%Z := [loadedTree] ]}.
Proof. vm_compute. reflexivity. Qed.

End Browser.

(** ** The claims that fail, at the loaded manager *)

Section Refutations.
#[local] Existing Instance HostNumber.
Local Open Scope float_scope.

(** The result of a collision query is [{collided: false}] or carries the
    zero vector as its direction. *)
Definition zeroOrRejected {N : Type} `{JSNumber N} (r : option (Collision N)) : Prop :=
  match r with
  | None => True
  | Some c => (fst (direction c) =? int 0)%js = true
              /\ (snd (direction c) =? int 0)%js = true
  end.

(** Draw number [n] of the generator of chunk [(cx, cy)] is below 1. *)
Definition drawBelowOne {N : Type} `{JSNumber N} (wm : WorldManager N) (cx cy : Z)
    (n : nat) : Prop :=
  (chunkRNGValue (chunkRNGSeed wm cx cy) n <? int 1)%js = true.

(** A manager whose seed string hashes to 1191975031. *)
Definition unluckyManager : WorldManager float :=
  set_seed "unlucky" 1191975031 freshManager.

Example loaded_collision_near_tree :
  checkCollision loadedManager 40 16 4 None
  = Some {| obstacle := ObjectCollider loadedTree;
            penetration := 0x1.5839cefc94308p+3;
            direction := (-1, 0) |}.
Proof. vm_compute. reflexivity. Qed.

Example loaded_collision_at_tree :
  checkCollision loadedManager 16 16 4 None
  = Some {| obstacle := ObjectCollider loadedTree;
            penetration := 0x1.160e73bf250c2p+5;
            direction := (nan, nan) |}.
Proof. vm_compute. reflexivity. Qed.

Example loaded_terrain_at_forest_centre :
  fst (_checkTerrainCollision loadedManager 16 16 4)
  = Some {| obstacle := TileCollider "forest" 5 16 16;
            penetration := 0x1.0cccccccccccdp+4;
            direction := (nan, nan) |}.
Proof. vm_compute. reflexivity. Qed.



(** C3, refuted as stated: at the centre of the registered tree, and at the
    centre of the forest tile, a collision is reported whose direction is not
    the zero vector: both components are [NaN]. *)
Lemma coincident_centre_not_zero_vector :
  ~ zeroOrRejected (checkCollision loadedManager 16 16 4 None)
  /\ ~ zeroOrRejected (fst (_checkTerrainCollision loadedManager 16 16 4)).
Proof.
  rewrite loaded_collision_at_tree, loaded_terrain_at_forest_centre.
  split; intros [Hx _]; vm_compute in Hx; discriminate.
Qed.


(** C6, refuted as stated: [clearChunk] forgets the queue entry of chunk
    (0, 0) and leaves its job in the pool, so that the next request for the
    chunk dispatches a second job: two jobs for one key are then in
    flight. *)
Lemma second_job_after_clearChunk :
  ~ atMostOneInFlight (snd (_generateChunkAsync (clearChunk dispatchedManager 0 0) 0 0)).
Proof.
  intros Hclaim. specialize (Hclaim (0, 0)%Z). vm_compute in Hclaim. lia.
Qed.

End Refutations.

(** * Exact evaluation: a manager over the reals *)

Section RealWorld.
#[local] Existing Instance RealNumber.
Local Open Scope R_scope.

Definition realNoise : NoiseConfig R :=
  {| scale := dec 15 3; octaves := 5; lacunarity := dec 21 1; gain := dec 45 2;
     heightWeight := dec 12 1; moistureWeight := dec 8 1;
     temperatureWeight := dec 6 1 |}.

Definition realTree : Obstacle R :=
  {| o_width := 40; o_height := 80; o_type := "tree"; o_x := 16; o_y := 16;
     o_id := ((0, 0)%Z, 0%nat, 0%nat); o_collisionRadius := 32 |}.

Definition realManager : WorldManager R :=
  {| chunkSize := 2; tileSize := 32; seed := "unlucky"; seedNum := 1191975031;
     chunks := ∅; collisionMap := {[ (0, 0)%Z := [realTree] ]};
     noiseConfig := realNoise; generationQueue := ∅; _generationId := 0;
     pool := Some []; host_document := true; host_now := 0; host_nextHandle := 0 |}.

Lemma real_queryChunk (x : R) : 0 <= x < 64 -> queryChunk realManager x = 0%Z.
Proof.
  intros Hx. unfold queryChunk. cbn. change (IZR (Z.of_nat 2)) with 2.
  assert (Int_part (x / (2 * 32)) = 0%Z) as ->.
  { apply Int_part_between. cbn. split.
    - apply Rmult_le_pos; [lra|]. left. apply Rinv_0_lt_compat. lra.
    - apply (Rmult_lt_reg_r (2 * 32)); [lra|].
      unfold Rdiv. rewrite Rmult_assoc, Rinv_l by lra. lra. }
  apply Int_part_between. lra.
Qed.

Lemma real_sqrt_576 : sqrt ((16 - 40) * (16 - 40) + (16 - 16) * (16 - 16)) = 24.
Proof. replace (_ + _) with (24 * 24) by lra. apply sqrt_square. lra. Qed.

Lemma real_collision_near_tree :
  checkCollision realManager 40 16 4 None
  = Some {| obstacle := ObjectCollider realTree; penetration := 12; direction := (-1, 0) |}.
Proof.
  apply (checkCollision_single _ _ _ _ _ realTree).
  - rewrite !real_queryChunk by lra. reflexivity.
  - unfold obstacleCollision, ntruthy. cbn.
    rewrite real_sqrt_576.
    rewrite (proj2 (Rltb_true 0 32)) by lra. rewrite orb_true_r.
    rewrite (proj2 (Rltb_true 24 (4 + 32))) by lra.
    f_equal. f_equal; [lra|]. f_equal; lra.
Qed.

Lemma real_distance_near_tree : obstacleDistance 40 16 realTree = 24.
Proof. unfold obstacleDistance. cbn. apply real_sqrt_576. Qed.

Lemma real_draw_is_one : chunkRNGValue (N:=R) (chunkRNGSeed realManager 0 0) 0 = 1.
Proof.
  unfold chunkRNGValue, chunkRNGState, chunkRNGNext, chunkRNGSeed.
  cbn [fst snd Nat.iter realManager seedNum].
  set (k := Z.land _ _). vm_compute in k. subst k.
  cbn. field.
Qed.

End RealWorld.

(** * Refutations and instances of the theorems *)

Section Instances.
#[local] Existing Instance HostNumber.
#[local] Existing Instance RealNumber.
Local Open Scope float_scope.

(** C2, refuted as stated: east of the registered tree the direction reported
    is (-1, 0), the direction from the query point to the tree, in binary64
    and in exact arithmetic alike. *)
Lemma direction_points_at_obstacle :
  ~ directionAwayFromObstacle (H:=HostNumber) loadedManager 40 16 4 None
  /\ ~ directionAwayFromObstacle (H:=RealNumber) realManager 40%R 16%R 4%R None.
Proof.
  split; intros Hclaim.
  - destruct (Hclaim _ loadedTree loaded_collision_near_tree eq_refl) as [_ Hdot];
      [vm_compute; reflexivity|].
    vm_compute in Hdot. discriminate.
  - destruct (Hclaim _ realTree real_collision_near_tree eq_refl) as [_ Hdot].
    + apply Reqb_false. rewrite real_distance_near_tree. cbn. lra.
    + apply Rltb_true in Hdot. cbn in Hdot. lra.
Qed.

(** C9, refuted as stated: with numeric seed 1191975031 the first value drawn
    for chunk (0, 0) is exactly 1. *)
Lemma chunk_rng_draws_one :
  ~ drawBelowOne (H:=HostNumber) unluckyManager 0 0 0
  /\ ~ drawBelowOne (H:=RealNumber) realManager 0 0 0.
Proof.
  split; unfold drawBelowOne.
  - vm_compute. discriminate.
  - rewrite real_draw_is_one. intros Hlt%Rltb_true. cbn in Hlt. lra.
Qed.

(** The theorems at the managers above. *)

Lemma synthesis_deterministic_witness :
  synthesisInputs freshManager = synthesisInputs loadedManager
  /\ _generateChunkData freshManager 0 0 = _generateChunkData loadedManager 0 0.
Proof.
  assert (synthesisInputs freshManager = synthesisInputs loadedManager) as Heq
    by (vm_compute; reflexivity).
  split; [exact Heq|].
  exact (proj1 (synthesis_deterministic freshManager loadedManager 0 0 Heq)).
Defined.

Lemma tile_classified_by_thresholds_witness :
  (0 < chunkSize freshManager)%nat
  /\ is_Some (cd_tiles (_generateChunkData freshManager 0 0) !! 0%nat).
Proof.
  assert (0 < chunkSize freshManager)%nat as Hsize by (cbn; lia).
  split; [exact Hsize|].
  eexists. exact (proj2 (tile_classified_by_thresholds freshManager 0 0 0 0 Hsize Hsize)).
Defined.

Lemma collision_direction_toward_obstacle_witness :
  checkCollision realManager 40%R 16%R 4%R None
  = Some {| obstacle := ObjectCollider realTree; penetration := 12%R;
            direction := ((-1)%R, 0%R) |}
  /\ exists o, ObjectCollider realTree = ObjectCollider o
               /\ (obstacleDistance 40%R 16%R o <> 0%R ->
                   unitToward (40%R, 16%R) (o_x o, o_y o) ((-1)%R, 0%R)).
Proof.
  split; [exact real_collision_near_tree|].
  destruct (collision_direction_toward_obstacle realManager 40%R 16%R 4%R None _
              real_collision_near_tree) as (o & Ho & Hdir).
  exists o. split; [exact Ho|]. intros Hd. apply Hdir, Hd.
Defined.

Lemma coincident_centre_direction_nan_witness :
  is_finite 16 = true
  /\ exists c, checkCollision loadedManager 16 16 4 None = Some c
               /\ direction c = (nan, nan).
Proof.
  split; [reflexivity|]. eexists. split; [exact loaded_collision_at_tree|].
  exact (proj1 (coincident_centre_direction_nan hostSin loadedManager 16 16 4
                  eq_refl eq_refl)
           None _ loadedTree loaded_collision_at_tree eq_refl eq_refl eq_refl).
Defined.


Lemma generation_deduplicated_witness :
  generationQueue dispatchedManager !! _key 0 0 = Some 0%nat
  /\ _generateChunkAsync dispatchedManager 0 0 = (InFlight 0, dispatchedManager)
  /\ poolJobs freshManager = []
  /\ atMostOneInFlight
       (execute freshManager
          [CallGenerateChunkAsync 0 0; CallGetTileAtWorld 40 16; CallGenerateChunkAsync 0 0;
           JobFulfilled 0 workerResult; CallUnloadFarChunks 5 5 1;
           CallGenerateChunkAsync 0 0]).
Proof.
  assert (generationQueue dispatchedManager !! _key 0 0 = Some 0%nat) as Hq
    by (vm_compute; reflexivity).
  assert (poolJobs freshManager = []) as Hnone by reflexivity.
  split; [exact Hq|]. split; [|split; [exact Hnone|]].
  - exact (proj1 (generation_deduplicated dispatchedManager 0 0) 0%nat Hq).
  - exact (proj1 (proj2 (proj2 (generation_deduplicated freshManager 0 0)) Hnone _)).
Defined.

Lemma unloadFarChunks_evicts_witness :
  exists chunk,
    chunks loadedManager !! (0, 0)%Z = Some chunk
    /\ chunks (unloadFarChunks loadedManager 5 5 1) !! (0, 0)%Z = None
    /\ collisionMap (unloadFarChunks loadedManager 5 5 1) !! (0, 0)%Z = None.
Proof.
  destruct (chunks loadedManager !! (0, 0)%Z) as [chunk|] eqn:Hc;
    [|vm_compute in Hc; discriminate].
  assert (chunks (unloadFarChunks loadedManager 5 5 1) !! (0, 0)%Z = None) as Hgone
    by (vm_compute; reflexivity).
  exists chunk. split; [reflexivity|]. split; [exact Hgone|].
  exact (proj2 (proj2 (unloadFarChunks_evicts loadedManager 5 5 1) (0, 0)%Z chunk Hc Hgone)).
Defined.

Lemma getTileAtWorld_never_deep_ocean_witness :
  c_tiles (fst (getChunk loadedManager 0 0)) !! 2%nat = Some 0%Z
  /\ fst (getTileAtWorld loadedManager 16 48) = 4%Z.
Proof.
  split; [vm_compute; reflexivity|].
  apply (proj1 (proj2 (getTileAtWorld_never_deep_ocean loadedManager 16 48)));
    vm_compute; (reflexivity || (split; [discriminate|reflexivity])).
Defined.

End Instances.

(** * Further properties *)

(** ** The ranges of the noise functions, in exact arithmetic *)

Section NoiseRanges.
#[local] Existing Instance RealNumber.
Local Open Scope R_scope.

Lemma real_fract_range (x : R) : 0 <= fract x < 1.
Proof.
  unfold fract. cbn. destruct (base_Int_part x) as [Hle Hgt]. lra.
Qed.

Lemma real_fade_range (t : R) : 0 <= t <= 1 -> 0 <= fade t <= 1.
Proof.
  intros Ht. unfold fade, int. cbn.
  assert (0 <= t * t) by nra. assert (t * t <= 1) by nra.
  split; [nra|].
  assert (0 <= (1 - t) * (1 - t) * (1 + 2 * t)) by (apply Rmult_le_pos; nra).
  nra.
Qed.

Lemma real_lerp_range (a b t : R) :
  0 <= a < 1 -> 0 <= b < 1 -> 0 <= t <= 1 -> 0 <= lerp a b t < 1.
Proof.
  intros Ha Hb Ht. unfold lerp. cbn.
  replace (a + (b - a) * t) with ((1 - t) * a + t * b) by ring.
  assert (0 <= (1 - t) * a) by (apply Rmult_le_pos; lra).
  assert (0 <= t * b) by (apply Rmult_le_pos; lra).
  split; [lra|].
  assert (0 <= (1 - t) * (1 - a)) by (apply Rmult_le_pos; lra).
  assert (0 <= t * (1 - b)) by (apply Rmult_le_pos; lra).
  destruct (Rle_lt_or_eq_dec 0 t (proj1 Ht)) as [Hpos| <-]; [|lra].
  assert (0 < t * (1 - b)) by (apply Rmult_lt_0_compat; lra).
  lra.
Qed.

Lemma real_hash2_range (x y seedNum : R) : 0 <= hash2 x y seedNum < 1.
Proof. unfold hash2. apply real_fract_range. Qed.

Lemma real_valueNoise2D_range (x y seedNum : R) : 0 <= valueNoise2D x y seedNum < 1.
Proof.
  unfold valueNoise2D. cbv zeta.
  pose proof (real_fract_range x) as Hx. pose proof (real_fract_range y) as Hy.
  unfold fract in Hx, Hy. cbn in Hx, Hy.
  cbn [nsub nfloor RealNumber].
  apply real_lerp_range; [apply real_lerp_range|apply real_lerp_range|];
    try apply real_hash2_range; apply real_fade_range; lra.
Qed.

(** X1: in exact arithmetic [hash2] takes its values in the half-open
    interval from 0 to 1, whatever the lattice point and the seed. *)
Theorem hash2_unit_interval (x y seedNum : R) : 0 <= hash2 x y seedNum < 1.
Proof. apply real_hash2_range. Qed.

(** X2: so does [valueNoise2D], an interpolation of four such values with
    weights between 0 and 1. *)
Theorem valueNoise2D_unit_interval (x y seedNum : R) : 0 <= valueNoise2D x y seedNum < 1.
Proof. apply real_valueNoise2D_range. Qed.

End NoiseRanges.

Section FractalRange.
#[local] Existing Instance RealNumber.
Local Open Scope R_scope.

(** The octave loop after at least one iteration: amplitudes stay
    nonnegative and the sum stays below the total amplitude. *)
Definition fractalBelow (a : fractal_acc R) : Prop :=
  0 <= fa_amp a /\ 0 <= fa_sum a /\ fa_sum a < fa_max a.

Lemma fractal_step_first (x y seedNum lacunarity gain : R) (a : fractal_acc R) (i : nat) :
  0 <= gain -> 0 < fa_amp a -> fa_sum a = 0 -> fa_max a = 0 ->
  fractalBelow (fractal_step x y seedNum lacunarity gain a i).
Proof.
  intros Hg Hamp Hsum Hmax. unfold fractalBelow, fractal_step.
  cbn [fa_amp fa_sum fa_max].
  set (v := valueNoise2D _ _ _).
  assert (0 <= v < 1) as Hv by apply real_valueNoise2D_range.
  cbn [nadd nmul RealNumber]. rewrite Hsum, Hmax.
  split; [apply Rmult_le_pos; lra|].
  assert (0 <= v * fa_amp a) by (apply Rmult_le_pos; lra).
  split; [lra|nra].
Qed.

Lemma fractal_step_below (x y seedNum lacunarity gain : R) (a : fractal_acc R) (i : nat) :
  0 <= gain -> fractalBelow a ->
  fractalBelow (fractal_step x y seedNum lacunarity gain a i).
Proof.
  intros Hg (Hamp & Hsum & Hlt). unfold fractalBelow, fractal_step.
  cbn [fa_amp fa_sum fa_max].
  set (v := valueNoise2D _ _ _).
  assert (0 <= v < 1) as Hv by apply real_valueNoise2D_range.
  cbn [nadd nmul RealNumber].
  split; [apply Rmult_le_pos; lra|].
  assert (0 <= v * fa_amp a) by (apply Rmult_le_pos; lra).
  split; [lra|nra].
Qed.

Lemma fractal_fold_below (x y seedNum lacunarity gain : R) (l : list nat)
    (a : fractal_acc R) :
  0 <= gain -> fractalBelow a ->
  fractalBelow (fold_left (fractal_step x y seedNum lacunarity gain) l a).
Proof.
  intros Hg. revert a. induction l as [|i l IH]; intros a Ha; simpl; [done|].
  apply IH. by apply fractal_step_below.
Qed.

Lemma real_fractalNoise2D_cases (x y seedNum : R) (octaves : Z) (lacunarity gain : R) :
  0 <= gain ->
  ((octaves <= 0)%Z -> fractalNoise2D x y seedNum octaves lacunarity gain = 0)
  /\ ((1 <= octaves)%Z -> 0 <= fractalNoise2D x y seedNum octaves lacunarity gain < 1).
Proof.
  intros Hg. split; intros Ho; unfold fractalNoise2D.
  - replace (Z.to_nat octaves) with 0%nat by lia. simpl.
    unfold int. cbn. rewrite (proj2 (Reqb_true 0 0)) by done. done.
  - destruct (Z.to_nat octaves) as [|n] eqn:Hn; [lia|].
    cbn [seq fold_left].
    set (first := fractal_step x y seedNum lacunarity gain _ 0%nat).
    assert (fractalBelow first) as Hfirst.
    { apply fractal_step_first; unfold int; cbn; (done || lra). }
    pose proof (fractal_fold_below x y seedNum lacunarity gain (seq 1 n) first Hg Hfirst)
      as (Hamp & Hsum & Hlt).
    set (a := fold_left _ _ first) in *.
    unfold int. cbn [neqb ndiv of_Z RealNumber].
    rewrite (proj2 (Reqb_false (fa_max a) 0)) by lra.
    split.
    + apply Rmult_le_pos; [done|]. left. apply Rinv_0_lt_compat. lra.
    + apply (Rmult_lt_reg_r (fa_max a)); [lra|].
      unfold Rdiv. rewrite Rmult_assoc, Rinv_l by lra. lra.
Qed.


(** X4: [ridgeNoise] lies in the closed interval from 0 to 1, in exact
    arithmetic. *)
Theorem ridgeNoise_unit_interval (x y seedNum : R) : 0 <= ridgeNoise x y seedNum <= 1.
Proof.
  unfold ridgeNoise.
  assert (0 <= default_gain) as Hg.
  { unfold default_gain, dec. cbn [ndiv of_Z RealNumber].
    change (10 ^ Z.of_nat 1)%Z with 10%Z. lra. }
  destruct (real_fractalNoise2D_cases x y seedNum 1 default_lacunarity default_gain Hg)
    as [_ Hf].
  specialize (Hf ltac:(lia)).
  set (f := fractalNoise2D _ _ _ _ _ _) in *.
  unfold int. cbn [nsub nmul nabs of_Z RealNumber].
  assert (Rabs (f * 2 - 1) <= 1) by (apply Rabs_le; lra).
  pose proof (Rabs_pos (f * 2 - 1)). lra.
Qed.


End FractalRange.

(** ** The generated arrays *)

Lemma fillRows_lookup_inv {A : Type} (size : nat) (v : nat -> nat -> A) (l : list A)
    (idx : nat) (a : A) :
  length l = (size * size)%nat ->
  fillRows size v l !! idx = Some a ->
  exists tx ty, (tx < size)%nat /\ (ty < size)%nat
                /\ idx = (ty * size + tx)%nat /\ a = v tx ty.
Proof.
  intros Hl Ha.
  pose proof (lookup_lt_Some _ _ _ Ha) as Hidx.
  rewrite (fillRows_length size v l Hl) in Hidx.
  assert (0 < size)%nat as Hsize by (destruct size; simpl in *; lia).
  exists (idx mod size)%nat, (idx / size)%nat.
  assert (idx mod size < size)%nat as Htx by (apply Nat.mod_upper_bound; lia).
  assert (idx / size < size)%nat as Hty by (apply Nat.Div0.div_lt_upper_bound; lia).
  assert (idx = (idx / size * size + idx mod size)%nat) as Hdiv.
  { rewrite Nat.mul_comm. apply Nat.div_mod_eq. }
  split; [done|]. split; [done|]. split; [done|].
  rewrite Hdiv in Ha at 1.
  rewrite (fillRows_lookup size v l _ _ Hl Htx Hty) in Ha. congruence.
Qed.

Section GeneratedArrays.
Context {N : Type} `{JSNumber N}.

(** X5: the four arrays that [_generateChunkData] returns have one entry per
    tile of the chunk, and every tile type stored is one of the ordinals 0 to
    11. *)
Theorem generated_chunk_well_formed (wm : WorldManager N) (cx cy : Z) :
  let data := _generateChunkData wm cx cy in
  let n := (chunkSize wm * chunkSize wm)%nat in
  length (cd_tiles data) = n
  /\ length (bd_height (cd_biomeData data)) = n
  /\ length (bd_moisture (cd_biomeData data)) = n
  /\ length (bd_temperature (cd_biomeData data)) = n
  /\ (forall idx t, cd_tiles data !! idx = Some t -> (0 <= t <= 11)%Z).
Proof.
  cbv zeta. unfold _generateChunkData.
  split; [apply synthesize_tiles_length|].
  split; [rewrite (synthesize_field bd_height ts_height) by done;
          apply fillRows_length, length_replicate|].
  split; [rewrite (synthesize_field bd_moisture ts_moisture) by done;
          apply fillRows_length, length_replicate|].
  split; [rewrite (synthesize_field bd_temperature ts_temperature) by done;
          apply fillRows_length, length_replicate|].
  intros idx t Ht. rewrite synthesize_tiles in Ht.
  apply fillRows_lookup_inv in Ht as (tx & ty & _ & _ & _ & ->);
    [|apply length_replicate].
  rewrite toUint8_small by apply sampleTile_range. apply sampleTile_range.
Qed.

End GeneratedArrays.

Section TerrainRanges.
#[local] Existing Instance RealNumber.
Local Open Scope R_scope.

(** Decimal literals over the reals. *)
Ltac real_literals :=
  unfold dec, int in *; cbn [ndiv of_Z nlt RealNumber] in *;
  repeat match goal with
         | |- context [(10 ^ Z.of_nat ?k)%Z] =>
             let p := eval vm_compute in (10 ^ Z.of_nat k)%Z in
             change (10 ^ Z.of_nat k)%Z with p
         | H : context [(10 ^ Z.of_nat ?k)%Z] |- _ =>
             let p := eval vm_compute in (10 ^ Z.of_nat k)%Z in
             change (10 ^ Z.of_nat k)%Z with p in H
         end.





Lemma real_overlay_band (featureNoise height moisture temperature : R) (tileType : Z) :
  infrastructureTile featureNoise height moisture temperature tileType <> tileType ->
  3 / 10 < height < 6 / 10
  /\ (9 <= infrastructureTile featureNoise height moisture temperature tileType <= 11)%Z.
Proof.
  unfold infrastructureTile. real_literals.
  destruct (Rltb (65 / 100) featureNoise && Rltb featureNoise (67 / 100)
            && Rltb (3 / 10) height && Rltb height (6 / 10) && Rltb (4 / 10) moisture)
    eqn:Hroad.
  - intros _. apply andb_prop in Hroad as [Hroad _].
    apply andb_prop in Hroad as [Hroad Hhi%Rltb_true].
    apply andb_prop in Hroad as [_ Hlo%Rltb_true]. split; [lra|lia].
  - destruct (Rltb (75 / 100) featureNoise && Rltb (35 / 100) height
              && Rltb height (5 / 10)) eqn:Hbuild; [|done].
    intros _. apply andb_prop in Hbuild as [Hbuild Hhi%Rltb_true].
    apply andb_prop in Hbuild as [_ Hlo%Rltb_true].
    split; [lra|]. destruct (Rltb (5 / 10) temperature); lia.
Qed.

Lemma real_lowland_biome (height moisture temperature ridge : R) :
  16 / 100 <= height < 65 / 100 ->
  (4 <= biomeTile height moisture temperature ridge <= 6)%Z.
Proof.
  intros Hh. unfold biomeTile. real_literals.
  rewrite (proj2 (Rltb_false height (12 / 100))) by lra.
  rewrite (proj2 (Rltb_false height (16 / 100))) by lra.
  rewrite (proj2 (Rltb_true height (65 / 100))) by lra.
  destruct (Rltb (7 / 10) moisture); [lia|]. destruct (Rltb moisture (3 / 10)); lia.
Qed.

(** X7: in exact arithmetic the infrastructure overlay changes a tile only
    where the height is between 0.3 and 0.6, where the biome is grass, forest
    or dirt, and it changes it to road, building or ruin; water, beach,
    mountain and snow tiles are never overridden. *)
Theorem infrastructure_only_on_lowland
    (featureNoise height moisture temperature ridge : R) :
  let biome := biomeTile height moisture temperature ridge in
  let tile := infrastructureTile featureNoise height moisture temperature biome in
  tile <> biome ->
  (4 <= biome <= 6)%Z /\ (9 <= tile <= 11)%Z /\ 3 / 10 < height < 6 / 10.
Proof.
  cbv zeta. intros Hchanged.
  apply real_overlay_band in Hchanged as [Hband Htile].
  split; [apply real_lowland_biome; lra|]. split; [exact Htile|exact Hband].
Qed.

Ltac real_compare :=
  repeat match goal with
         | |- context [Rltb ?a ?b] =>
             first [ rewrite (proj2 (Rltb_true a b)) by lra
                   | rewrite (proj2 (Rltb_false a b)) by lra ]
         end.


Lemma real_grass_tile : biomeTile (4 / 10) (1 / 2) (7 / 10) 0 = 4%Z.
Proof. unfold biomeTile. real_literals. real_compare. reflexivity. Qed.

Lemma real_building_tile :
  infrastructureTile (8 / 10) (4 / 10) (1 / 2) (7 / 10) 4 = 10%Z.
Proof. unfold infrastructureTile. real_literals. real_compare. reflexivity. Qed.

Lemma infrastructure_only_on_lowland_witness :
  infrastructureTile (8 / 10) (4 / 10) (1 / 2) (7 / 10) (biomeTile (4 / 10) (1 / 2) (7 / 10) 0)
  <> biomeTile (4 / 10) (1 / 2) (7 / 10) 0
  /\ (4 <= biomeTile (4 / 10)%R (1 / 2)%R (7 / 10)%R 0%R <= 6)%Z.
Proof.
  assert (infrastructureTile (8 / 10) (4 / 10) (1 / 2) (7 / 10)
            (biomeTile (4 / 10) (1 / 2) (7 / 10) 0)
          <> biomeTile (4 / 10) (1 / 2) (7 / 10) 0) as Hchanged
    by (rewrite real_grass_tile, real_building_tile; discriminate).
  split; [exact Hchanged|].
  exact (proj1 (infrastructure_only_on_lowland (8 / 10) (4 / 10) (1 / 2) (7 / 10) 0 Hchanged)).
Defined.

End TerrainRanges.

(** ** The decoration generator *)

Section Generator.
Local Open Scope Z_scope.

Lemma toInt32_mod (z : Z) : toInt32 z mod 2 ^ 32 = z mod 2 ^ 32.
Proof.
  unfold toInt32. rewrite Zminus_mod_idemp_l. f_equal. lia.
Qed.

Lemma toInt32_range (z : Z) : - 2 ^ 31 <= toInt32 z < 2 ^ 31.
Proof.
  unfold toInt32. pose proof (Z.mod_pos_bound (z + 2 ^ 31) (2 ^ 32) ltac:(lia)). lia.
Qed.

Lemma imul_mod (a b : Z) : imul a b mod 2 ^ 32 = (a * b) mod 2 ^ 32.
Proof.
  unfold imul. rewrite toInt32_mod, Zmult_mod, !toInt32_mod, <- Zmult_mod. done.
Qed.

(** The state after one draw is the old state times the square of the
    multiplier, modulo [2^32]. *)
Lemma chunkRNGNext_mod {N : Type} `{JSNumber N} (state : Z) :
  snd (chunkRNGNext (N:=N) state) mod 2 ^ 32
  = (state * (1597334677 * 1597334677)) mod 2 ^ 32.
Proof.
  unfold chunkRNGNext. cbn [snd].
  rewrite toInt32_mod, imul_mod, Zmult_mod, toInt32_mod, imul_mod, <- Zmult_mod.
  f_equal. lia.
Qed.

Lemma divide_mod_2_32 (a b : Z) :
  a mod 2 ^ 32 = b mod 2 ^ 32 -> (2 ^ 31 | a) <-> (2 ^ 31 | b).
Proof.
  intros Hab.
  assert (a mod 2 ^ 31 = b mod 2 ^ 31) as Hm.
  { rewrite <- (Z.mod_mod_divide a (2 ^ 32) (2 ^ 31)), <- (Z.mod_mod_divide b (2 ^ 32) (2 ^ 31)),
      Hab; [done|exists 2; lia..]. }
  rewrite <- !(Z.mod_divide _ (2 ^ 31)) by lia. by rewrite Hm.
Qed.

Lemma chunkRNGNext_divide {N : Type} `{JSNumber N} (state : Z) :
  (2 ^ 31 | snd (chunkRNGNext (N:=N) state)) <-> (2 ^ 31 | state).
Proof.
  rewrite (divide_mod_2_32 _ _ (chunkRNGNext_mod state)). split.
  - intros Hd. rewrite Z.mul_comm in Hd.
    apply (Z.gauss _ _ _ Hd). reflexivity.
  - intros Hd. by apply Z.divide_mul_l.
Qed.

Lemma chunkRNGState_divide {N : Type} `{JSNumber N} (seed0 : Z) (n : nat) :
  (2 ^ 31 | chunkRNGState (N:=N) seed0 n) <-> (2 ^ 31 | seed0).
Proof.
  induction n as [|n IH]; [done|].
  rewrite <- IH. unfold chunkRNGState. cbn [Nat.iter].
  apply chunkRNGNext_divide.
Qed.

(** The numerator of draw [n]: the low 31 bits of the new state. *)
Definition chunkRNGNumerator (seed0 : Z) (n : nat) : Z :=
  Z.land (chunkRNGState (N:=R) (H:=RealNumber) seed0 (S n)) 0x7fffffff.

Lemma chunkRNGNumerator_zero (seed0 : Z) (n : nat) :
  chunkRNGNumerator seed0 n = 0 <-> (2 ^ 31 | seed0).
Proof.
  unfold chunkRNGNumerator. change 0x7fffffff with (Z.ones 31).
  rewrite Z.land_ones by lia. rewrite Z.mod_divide by lia.
  apply chunkRNGState_divide.
Qed.

End Generator.

Lemma chunkRNGState_S {N : Type} `{JSNumber N} (seed0 : Z) (n : nat) :
  chunkRNGState (N:=N) seed0 (S n) = snd (chunkRNGNext (N:=N) (chunkRNGState (N:=N) seed0 n)).
Proof. reflexivity. Qed.

Lemma chunkRNGNext_fst {N : Type} `{JSNumber N} (state : Z) :
  fst (chunkRNGNext (N:=N) state)
  = (int (Z.land (snd (chunkRNGNext (N:=N) state)) 0x7fffffff) / int 0x7fffffff)%js.
Proof. unfold chunkRNGNext. cbn [fst snd]. reflexivity. Qed.

Lemma chunkRNGValue_numerator {N : Type} `{JSNumber N} (seed0 : Z) (n : nat) :
  chunkRNGValue seed0 n
  = (int (Z.land (chunkRNGState (N:=N) seed0 (S n)) 0x7fffffff) / int 0x7fffffff)%js.
Proof. unfold chunkRNGValue. rewrite chunkRNGState_S. apply chunkRNGNext_fst. Qed.

Section GeneratorZero.
Context (sin : float -> float).

(** X8: the generator of a chunk returns 0 exactly when its seed
    [seedNum + cx * 131 + cy * 197] is a multiple of [2^31], and then it
    returns 0 at every draw; for such a seed the value is also 0 in
    binary64. *)
Theorem chunk_rng_zero_iff (seed0 : Z) (n : nat) :
  (chunkRNGValue (N:=R) (H:=RealNumber) seed0 n = 0%R <-> (2 ^ 31 | seed0)%Z)
  /\ ((2 ^ 31 | seed0)%Z ->
      chunkRNGValue (N:=float) (H:=FloatNumber sin) seed0 n = 0%float).
Proof.
  split.
  - rewrite <- (chunkRNGNumerator_zero seed0 n), chunkRNGValue_numerator.
    unfold chunkRNGNumerator.
    generalize (Z.land (chunkRNGState (N:=R) (H:=RealNumber) seed0 (S n)) 0x7fffffff).
    intros k. unfold int. cbn [ndiv of_Z RealNumber].
    split.
    + intros Hzero. apply eq_IZR.
      apply (Rmult_eq_compat_r (IZR 2147483647)) in Hzero.
      unfold Rdiv in Hzero. rewrite Rmult_assoc, Rinv_l in Hzero by lra. lra.
    + intros ->. unfold Rdiv. lra.
  - intros Hd. rewrite chunkRNGValue_numerator.
    replace (Z.land (chunkRNGState (N:=float) (H:=FloatNumber sin) seed0 (S n)) 0x7fffffff)
      with 0%Z; [vm_compute; reflexivity|].
    symmetry. change 0x7fffffff%Z with (Z.ones 31). rewrite Z.land_ones by lia.
    apply Z.mod_divide; [lia|]. by apply chunkRNGState_divide.
Qed.

End GeneratorZero.

Lemma chunk_rng_zero_iff_witness :
  (2 ^ 31 | 2147483648)%Z
  /\ chunkRNGValue (N:=R) (H:=RealNumber) 2147483648 3 = 0%R
  /\ chunkRNGValue (N:=float) (H:=HostNumber) 2147483648 3 = 0%float.
Proof.
  assert (2 ^ 31 | 2147483648)%Z as Hd by (exists 1%Z; reflexivity).
  split; [exact Hd|]. split.
  - exact (proj2 (proj1 (chunk_rng_zero_iff hostSin 2147483648 3)) Hd).
  - exact (proj2 (chunk_rng_zero_iff hostSin 2147483648 3) Hd).
Defined.

(** ** The decoration pass *)

Lemma fold_left_invariant {A B : Type} (P : A -> Prop) (f : A -> B -> A) (l : list B) (a : A) :
  (forall a b, b ∈ l -> P a -> P (f a b)) -> P a -> P (fold_left f l a).
Proof.
  revert a. induction l as [|b l IH]; intros a Hstep Ha; simpl; [done|].
  apply IH.
  - intros a' b' Hb'. apply Hstep. by right.
  - apply Hstep; [by left|done].
Qed.

Lemma fold_left_length_bound {A B C : Type} (g : A -> list C) (f : A -> B -> A)
    (step : nat) (l : list B) (a : A) :
  (forall a b, (length (g (f a b)) <= length (g a) + step)%nat) ->
  (length (g (fold_left f l a)) <= length (g a) + length l * step)%nat.
Proof.
  intros Hstep. revert a. induction l as [|b l IH]; intros a; simpl; [lia|].
  specialize (IH (f a b)). specialize (Hstep a b). lia.
Qed.

Section Decoration.
Context {N : Type} `{JSNumber N}.
Local Open Scope js_scope.

(** A tree standing on a forest or grass tile of the chunk. *)
Definition treeOnVegetation (wm : WorldManager N) (cx cy : Z) (tiles : list Z) (tilePx : N)
    (o : Obstacle N) : Prop :=
  exists tx ty size age,
    o = treeObstacle wm cx cy tilePx tx ty size age
    /\ (tx < chunkSize wm)%nat /\ (ty < chunkSize wm)%nat
    /\ (tiles !! (ty * chunkSize wm + tx)%nat = Some 5%Z
        \/ tiles !! (ty * chunkSize wm + tx)%nat = Some 4%Z).

Lemma decorateTile_cases (wm : WorldManager N) cx cy tiles biomeData tilePx ty tx acc :
  snd (decorateTile wm cx cy tiles biomeData tilePx ty tx acc) = snd acc
  \/ exists size age,
       snd (decorateTile wm cx cy tiles biomeData tilePx ty tx acc)
       = snd acc ++ [treeObstacle wm cx cy tilePx tx ty size age]
       /\ (tiles !! (ty * chunkSize wm + tx)%nat = Some 5%Z
           \/ tiles !! (ty * chunkSize wm + tx)%nat = Some 4%Z).
Proof.
  unfold decorateTile. cbv zeta.
  destruct (chunkRNGNext (fst acc)) as [featureRoll state].
  destruct (tiles !! (ty * chunkSize wm + tx)%nat) as [t|]; [|by left].
  destruct (decide (t = 5%Z)) as [->|Hforest].
  { destruct (featureRoll <? dec 3 1); [right|by left].
    eexists _, _. split; [reflexivity|by left]. }
  destruct (decide (t = 4%Z)) as [->|Hgrass].
  { destruct ((featureRoll <? dec 5 2) && _); [right|by left].
    eexists _, _. split; [reflexivity|by right]. }
  left. destruct t as [|p|p]; try done.
  do 3 (destruct p as [p|p|]; try done).
Qed.

Lemma decorateTile_trees (wm : WorldManager N) cx cy tiles biomeData tilePx ty tx acc :
  (tx < chunkSize wm)%nat -> (ty < chunkSize wm)%nat ->
  Forall (treeOnVegetation wm cx cy tiles tilePx) (snd acc) ->
  Forall (treeOnVegetation wm cx cy tiles tilePx)
    (snd (decorateTile wm cx cy tiles biomeData tilePx ty tx acc)).
Proof.
  intros Htx Hty Hacc.
  destruct (decorateTile_cases wm cx cy tiles biomeData tilePx ty tx acc)
    as [->|(size & age & -> & Htile)]; [done|].
  apply Forall_app. split; [done|].
  apply Forall_singleton. by exists tx, ty, size, age.
Qed.

Lemma decorateTile_length (wm : WorldManager N) cx cy tiles biomeData tilePx ty acc tx :
  (length (snd (decorateTile wm cx cy tiles biomeData tilePx ty tx acc))
   <= length (snd acc) + 1)%nat.
Proof.
  destruct (decorateTile_cases wm cx cy tiles biomeData tilePx ty tx acc)
    as [->|(size & age & -> & _)]; [lia|].
  rewrite length_app. simpl. lia.
Qed.

Lemma trees_filter_id (wm : WorldManager N) cx cy tiles tilePx (l : list (Obstacle N)) :
  Forall (treeOnVegetation wm cx cy tiles tilePx) l ->
  filter (fun obj => o_type obj = "tree"%string) l = l.
Proof.
  induction 1 as [|o l (tx & ty & size & age & -> & _) _ IH]; [done|].
  rewrite filter_cons_True by done. by rewrite IH.
Qed.

(** X9: every object that [_decorateChunk] places is a tree at the centre of
    a tile of the chunk whose type is forest or grass; there are at most
    [chunkSize * chunkSize] of them, and the collision registry receives all
    of them under the chunk key. *)
Theorem decoration_trees_on_vegetation (wm : WorldManager N) (cx cy : Z) (tiles : list Z)
    (biomeData : BiomeData N) (tilePx : N) :
  Forall (treeOnVegetation wm cx cy tiles tilePx)
    (chunkTreesOf wm cx cy tiles biomeData tilePx)
  /\ (length (chunkTreesOf wm cx cy tiles biomeData tilePx)
      <= chunkSize wm * chunkSize wm)%nat
  /\ collisionMap (snd (_decorateChunk wm cx cy tiles biomeData tilePx)) !! _key cx cy
     = Some (chunkTreesOf wm cx cy tiles biomeData tilePx).
Proof.
  assert (Forall (treeOnVegetation wm cx cy tiles tilePx)
            (chunkTreesOf wm cx cy tiles biomeData tilePx)) as Htrees.
  { unfold chunkTreesOf.
    apply (fold_left_invariant
             (fun acc => Forall (treeOnVegetation wm cx cy tiles tilePx) (snd acc)));
      [|by apply Forall_nil].
    intros acc ty Hty%elem_of_seq Hacc.
    apply (fold_left_invariant
             (fun acc => Forall (treeOnVegetation wm cx cy tiles tilePx) (snd acc)));
      [|done].
    intros acc' tx Htx%elem_of_seq Hacc'. apply decorateTile_trees; [lia|lia|done]. }
  split; [exact Htrees|]. split.
  - unfold chunkTreesOf.
    etransitivity.
    { apply (fold_left_length_bound snd _ (chunkSize wm)).
      intros acc ty. etransitivity.
      - apply (fold_left_length_bound snd _ 1). intros acc' tx. apply decorateTile_length.
      - rewrite length_seq. lia. }
    rewrite length_seq. simpl. lia.
  - unfold _decorateChunk. cbn [snd]. destruct wm; cbn.
    rewrite lookup_insert_eq. f_equal. by eapply trees_filter_id.
Qed.

End Decoration.

(** ** Placeholders and settled jobs *)

Section Placeholder.
Context {N : Type} `{JSNumber N}.
Local Open Scope js_scope.

Lemma postProcess_placeholder (wm : WorldManager N) cx cy :
  host_document wm = true ->
  c_tiles (fst (_postProcessGeneratedChunk wm cx cy None))
  = replicate (chunkSize wm * chunkSize wm) 0%Z
  /\ is_Some (c_canvas (fst (_postProcessGeneratedChunk wm cx cy None))).
Proof.
  intros Hdoc. unfold _postProcessGeneratedChunk. cbn [fmap option_fmap option_map].
  pose proof (createCanvas_config wm cx cy None None) as Hc.
  assert (is_Some (fst (_createCanvasForTiles wm cx cy None None))) as Hcanvas.
  { unfold _createCanvasForTiles. rewrite Hdoc. simpl. by eexists. }
  destruct (_createCanvasForTiles wm cx cy None None) as [rendered wm1]. simpl in *.
  injection Hc as -> _ _ _. done.
Qed.

(** X10: where [document] exists, [getChunk] for a chunk that is not cached
    returns a placeholder whose tiles are all 0 and which has a canvas; the
    request for generation that follows finds this placeholder and dispatches
    no job, so the placeholder stays in the cache, the next [getChunk] returns
    it again, and [getTileAtWorld] answers 4 everywhere in the chunk. *)
Theorem getChunk_browser_placeholder (wm : WorldManager N) (cx cy : Z) :
  host_document wm = true ->
  cachedChunk wm (_key cx cy) = None ->
  c_tiles (fst (getChunk wm cx cy)) = replicate (chunkSize wm * chunkSize wm) 0%Z
  /\ pool (snd (getChunk wm cx cy)) = pool wm
  /\ generationQueue (snd (getChunk wm cx cy)) = generationQueue wm
  /\ getChunk (snd (getChunk wm cx cy)) cx cy = getChunk wm cx cy
  /\ (forall x y,
        floorZ (tileChunk wm (worldTile wm x)) = cx ->
        floorZ (tileChunk wm (worldTile wm y)) = cy ->
        fst (getTileAtWorld wm x y) = 4%Z).
Proof.
  intros Hdoc Hmiss.
  assert (c_tiles (fst (getChunk wm cx cy)) = replicate (chunkSize wm * chunkSize wm) 0%Z
          /\ pool (snd (getChunk wm cx cy)) = pool wm
          /\ generationQueue (snd (getChunk wm cx cy)) = generationQueue wm
          /\ getChunk (snd (getChunk wm cx cy)) cx cy = getChunk wm cx cy)
    as (Htiles & Hpool & Hqueue & Hagain).
  { destruct (postProcess_placeholder wm cx cy Hdoc) as [Htiles [canvas Hcanvas]].
    destruct (postProcess_queue wm cx cy None) as (Hq & Hp & _).
    destruct (_postProcessGeneratedChunk wm cx cy None) as [placeholder wm1] eqn:Hpost.
    cbn [fst snd] in *.
    assert (cachedChunk (set_chunks (insert (_key cx cy) placeholder) wm1) (_key cx cy)
            = Some placeholder) as Hcached.
    { unfold cachedChunk. destruct wm1; cbn. rewrite lookup_insert_eq. by rewrite Hcanvas. }
    assert (getChunk wm cx cy
            = (placeholder, set_chunks (insert (_key cx cy) placeholder) wm1)) as ->.
    { unfold getChunk. rewrite Hmiss, Hpost. f_equal.
      unfold _generateChunkAsync. rewrite Hcached.
      by destruct (generationQueue _ !! _key cx cy). }
    cbn [fst snd].
    split; [exact Htiles|]. split; [by destruct wm1|]. split; [by destruct wm1|].
    unfold getChunk. by rewrite Hcached. }
  split; [exact Htiles|]. split; [exact Hpool|]. split; [exact Hqueue|].
  split; [exact Hagain|].
  intros x y Hx Hy. unfold getTileAtWorld. cbv zeta.
  unfold tileChunk, worldTile in Hx, Hy. rewrite Hx, Hy.
  destruct (getChunk wm cx cy) as [chunk wm'] eqn:Hget. cbn [fst snd] in *.
  destruct (_ || _); [done|]. rewrite Htiles.
  destruct (replicate _ _ !! _) as [t|] eqn:Ht; [|done].
  apply lookup_replicate in Ht as [-> _]. done.
Qed.

End Placeholder.

Section Settled.
Context {N : Type} `{JSNumber N}.
Context (seedStringToNumber : string -> Z).
Local Open Scope js_scope.

Lemma jobFulfilled_caches (wm : WorldManager N) handle jobs j rest result :
  pool wm = Some jobs -> takeJob handle jobs = Some (j, rest) ->
  (exists chunk,
     chunks (jobFulfilled wm handle result) !! jobKey j = Some chunk
     /\ c_tiles chunk = cd_tiles result /\ c_cx chunk = j_cx j /\ c_cy chunk = j_cy j)
  /\ generationQueue (jobFulfilled wm handle result) !! jobKey j = None
  /\ pool (jobFulfilled wm handle result) = Some rest.
Proof.
  intros Hpool Htake. unfold jobFulfilled. rewrite Hpool, Htake. cbv zeta.
  destruct (postProcess_chunk (set_pool (Some rest) (host_nextHandle wm) wm)
              (j_cx j) (j_cy j) result) as (Htiles & _ & Hcx & Hcy).
  destruct (postProcess_queue (set_pool (Some rest) (host_nextHandle wm) wm)
              (j_cx j) (j_cy j) (Some result)) as (_ & Hp & _).
  destruct (_postProcessGeneratedChunk _ _ _ _) as [chunk wm1]. cbn [fst snd] in *.
  unfold jobKey. split; [|split].
  - exists chunk. split; [|done]. destruct wm1; cbn. apply lookup_insert_eq.
  - destruct wm1; cbn. apply lookup_delete_eq.
  - destruct wm1; cbn in *. by rewrite Hp.
Qed.

Lemma generateChunkAsync_dispatch (wm : WorldManager N) cx cy :
  pool wm = Some [] ->
  generationQueue wm !! _key cx cy = None ->
  cachedChunk wm (_key cx cy) = None ->
  fst (_generateChunkAsync wm cx cy) = Dispatched (host_nextHandle wm)
  /\ exists j,
       pool (snd (_generateChunkAsync wm cx cy)) = Some [j]
       /\ takeJob (host_nextHandle wm) [j] = Some (j, [])
       /\ jobKey j = _key cx cy /\ j_seedNum j = seedNum wm.
Proof.
  intros Hpool Hq Hc. unfold _generateChunkAsync. rewrite Hq, Hc, Hpool. cbn [fst snd].
  split; [done|]. eexists. split; [reflexivity|].
  unfold takeJob. rewrite !filter_cons, !filter_nil. cbn [j_handle].
  rewrite decide_True by done. rewrite decide_False by (intros Hne; by apply Hne). done.
Qed.

(** X11: a job dispatched by [_generateChunkAsync] and fulfilled by the pool
    leaves the chunk in the cache with the tiles the worker returned, removes
    the key from the generation queue and empties the pool. *)
Theorem dispatched_job_result_cached (wm : WorldManager N) (cx cy : Z)
    (result : ChunkData N) :
  pool wm = Some [] ->
  generationQueue wm !! _key cx cy = None ->
  cachedChunk wm (_key cx cy) = None ->
  let settled :=
    jobFulfilled (snd (_generateChunkAsync wm cx cy)) (host_nextHandle wm) result in
  fst (_generateChunkAsync wm cx cy) = Dispatched (host_nextHandle wm)
  /\ (exists chunk,
        chunks settled !! _key cx cy = Some chunk
        /\ c_tiles chunk = cd_tiles result /\ c_cx chunk = cx /\ c_cy chunk = cy)
  /\ generationQueue settled !! _key cx cy = None
  /\ pool settled = Some [].
Proof.
  intros Hpool Hq Hc. cbv zeta.
  destruct (generateChunkAsync_dispatch wm cx cy Hpool Hq Hc)
    as (Hout & j & Hjobs & Htake & Hkey & _).
  split; [exact Hout|].
  destruct (jobFulfilled_caches _ _ _ _ _ result Hjobs Htake) as ((chunk & Hchunk) & Hgone & Hp).
  rewrite Hkey in Hchunk, Hgone. unfold jobKey, _key in Hkey. injection Hkey as Hcx Hcy.
  destruct Hchunk as (Hchunk & Htiles & Hccx & Hccy).
  rewrite Hcx in Hccx. rewrite Hcy in Hccy.
  split; [|done]. by exists chunk.
Qed.

(** X12: [setSeed] empties the cache and the queue and leaves the pool as it
    is: the result of a job that was dispatched under the previous seed is
    cached, when the job is fulfilled, under the new seed. *)
Theorem stale_job_result_cached_after_setSeed (wm : WorldManager N) (cx cy : Z)
    (s : string) (result : ChunkData N) :
  pool wm = Some [] ->
  generationQueue wm !! _key cx cy = None ->
  cachedChunk wm (_key cx cy) = None ->
  let reseeded := setSeed seedStringToNumber (snd (_generateChunkAsync wm cx cy)) s in
  let settled := jobFulfilled reseeded (host_nextHandle wm) result in
  chunks reseeded = ∅
  /\ generationQueue reseeded = ∅
  /\ (exists j, pool reseeded = Some [j] /\ j_seedNum j = seedNum wm)
  /\ seedNum settled = seedStringToNumber s
  /\ exists chunk,
       chunks settled !! _key cx cy = Some chunk /\ c_tiles chunk = cd_tiles result.
Proof.
  intros Hpool Hq Hc. cbv zeta.
  destruct (generateChunkAsync_dispatch wm cx cy Hpool Hq Hc)
    as (_ & j & Hjobs & Htake & Hkey & Hseed).
  set (wm1 := snd (_generateChunkAsync wm cx cy)) in *.
  assert (pool (setSeed seedStringToNumber wm1 s) = Some [j]) as Hjobs'
    by (by destruct wm1).
  split; [by destruct wm1|]. split; [by destruct wm1|].
  split; [by exists j|]. split.
  - unfold jobFulfilled. rewrite Hjobs', Htake. cbv zeta.
    pose proof (postProcess_config
                  (set_pool (Some []) (host_nextHandle (setSeed seedStringToNumber wm1 s))
                     (setSeed seedStringToNumber wm1 s)) (j_cx j) (j_cy j) (Some result))
      as Hcfg.
    destruct (_postProcessGeneratedChunk _ _ _ _) as [chunk wm2]. cbn [fst snd] in *.
    injection Hcfg as _ _ Hs _. destruct wm2; cbn in *. rewrite Hs. by destruct wm1.
  - destruct (jobFulfilled_caches _ _ _ _ _ result Hjobs' Htake)
      as ((chunk & Hchunk & Htiles & _) & _).
    rewrite Hkey in Hchunk. by exists chunk.
Qed.

End Settled.

Section FurtherInstances.
#[local] Existing Instance HostNumber.
Local Open Scope float_scope.

Lemma getChunk_browser_placeholder_witness :
  host_document freshManager = true
  /\ cachedChunk freshManager (_key 0 0) = None
  /\ c_tiles (fst (getChunk freshManager 0 0)) = [0; 0; 0; 0]%Z
  /\ fst (getTileAtWorld freshManager 40 16) = 4%Z.
Proof.
  assert (host_document freshManager = true) as Hdoc by reflexivity.
  assert (cachedChunk freshManager (_key 0 0) = None) as Hmiss by reflexivity.
  split; [exact Hdoc|]. split; [exact Hmiss|]. split.
  - exact (proj1 (getChunk_browser_placeholder freshManager 0 0 Hdoc Hmiss)).
  - apply (proj2 (proj2 (proj2 (proj2
             (getChunk_browser_placeholder freshManager 0 0 Hdoc Hmiss)))));
      vm_compute; reflexivity.
Defined.

Lemma dispatched_job_result_cached_witness :
  pool freshManager = Some []
  /\ exists chunk,
       chunks loadedManager !! _key 0 0 = Some chunk
       /\ c_tiles chunk = cd_tiles workerResult /\ c_cx chunk = 0%Z /\ c_cy chunk = 0%Z.
Proof.
  assert (pool freshManager = Some []) as Hpool by reflexivity.
  split; [exact Hpool|].
  exact (proj1 (proj2 (dispatched_job_result_cached freshManager 0 0 workerResult
                         Hpool eq_refl eq_refl))).
Defined.

Lemma stale_job_result_cached_after_setSeed_witness :
  pool freshManager = Some []
  /\ seedNum freshManager = 4%Z
  /\ seedNum (jobFulfilled (setSeed seedHash dispatchedManager "other") 0 workerResult) = 5%Z
  /\ exists chunk,
       chunks (jobFulfilled (setSeed seedHash dispatchedManager "other") 0 workerResult)
         !! _key 0 0 = Some chunk
       /\ c_tiles chunk = cd_tiles workerResult.
Proof.
  assert (pool freshManager = Some []) as Hpool by reflexivity.
  split; [exact Hpool|]. split; [reflexivity|].
  destruct (stale_job_result_cached_after_setSeed seedHash freshManager 0 0 "other"
              workerResult Hpool eq_refl eq_refl) as (_ & _ & _ & Hseed & Hchunk).
  split; [exact Hseed|exact Hchunk].
Defined.

End FurtherInstances.
